(** * Bring! integration: list resolver, catalog cache and session scope

    A shallow embedding of [bring_client.py] (class [BringClient]) and
    [bring_integration.py] (class [BringIntegration]).

    Every method of the two classes is a computation in a state-and-exception
    monad: the state is the receiver object ([self]) together with the history
    of everything that crossed the process boundary (HTTP sessions opened and
    closed, requests sent to the vendor service).  A raised Python exception
    is the [Raise] outcome; the object keeps whatever was assigned before the
    exception, exactly as in Python.  Calls to [logger] have no effect on
    either and are left out.

    Modelled: every method of [BringIntegration] and of [BringClient].  The
    command line tool and the example scripts are callers of these methods
    and are not modelled. *)

From stdpp Require Import base option list strings pretty gmap.
From Stdlib Require Import Ascii.

(** ** Python values that reach the code *)

(** Scalars that may sit in an item dict or in the batch handed to
    [add_items]. *)
Inductive pyval :=
| VNone
| VBool (b : bool)
| VInt (z : Z)
| VStr (s : string).

(** [str(v)], as an f-string renders [v]. *)
Definition py_str (v : pyval) : string :=
  match v with
  | VNone => "None"
  | VBool true => "True"
  | VBool false => "False"
  | VInt z => pretty z
  | VStr s => s
  end.

(** [bool(v)], as [if v] tests [v]. *)
Definition py_bool (v : pyval) : bool :=
  match v with
  | VNone => false
  | VBool b => b
  | VInt z => negb (z =? 0)%Z
  | VStr s => negb (String.eqb s "")
  end.

(** A [Dict[str, Any]] whose values are scalars. *)
Abbreviation pydict := (gmap string pyval).

(** One element of the [items] argument of [add_items]: the caller may pass
    anything; the code tells a [str] from a [dict] from the rest. *)
Inductive item_arg :=
| Scalar (v : pyval)
| Dict (d : pydict).

(** Truthiness of an [Optional[str]]: [None] and [""] are falsy. *)
Definition truthy (o : option string) : bool :=
  match o with
  | Some s => negb (String.eqb s "")
  | None => false
  end.

(** ** Data model *)

(** An entry of the catalog, as the vendor returns it.  [listUuid] is read by
    subscript (the key is always there), [name] and [theme] are read with
    [.get] and a default. *)
Record ListSummary := mkListSummary {
  listUuid : string;
  name : option string;
  theme : option string
}.

(** [lst.get("name", "")] *)
Definition get_name (lst : ListSummary) : string := default "" (name lst).

(** The answer of [Bring.load_lists()]; the code reads it with
    [response.get("lists", [])]. *)
Record load_lists_response := mkResponse {
  lists : option (list ListSummary)
}.

(** The answer of [Bring.get_list(uuid)]: a dict with the keys ['purchase']
    and ['recently'], each a list of item dicts. *)
Abbreviation ListContents := (gmap string (list pydict)).

(** [bring_api.BringItemOperation] *)
Inductive BringItemOperation := ADD | COMPLETE | REMOVE.

(** ** Exceptions *)

Inductive exn :=
| ValueError (msg : string)
| KeyError (key : string)
| AttributeError
| TransportError (msg : string).

(** [f"List '{list_name}' not found"] *)
Definition ListNotFound (list_name : string) : exn :=
  ValueError ("List '" +:+ list_name +:+ "' not found").

Definition NoDefaultListConfigured : exn :=
  ValueError ("No list specified and no default list set. " +:+
              "Use set_default_list() or provide list_name parameter.").

Definition CredentialsMissing : exn :=
  ValueError ("Bring! credentials not provided. " +:+
              "Set BRING_EMAIL and BRING_PASSWORD environment variables " +:+
              "or pass them to the constructor.").

(** ** What crosses the process boundary *)

Inductive event :=
| SessionOpen (sid : nat)                      (* aiohttp.ClientSession() *)
| SessionClose (sid : nat)                     (* session.close() *)
| Login                                        (* bring.login() *)
| LoadLists                                    (* bring.load_lists() *)
| GetList (list_uuid : string)                 (* bring.get_list(..) *)
| SaveItem (list_uuid item_name specification : string)
| CompleteItem (list_uuid item_name : string)
| RemoveItem (list_uuid item_name : string)
| BatchUpdateList (list_uuid : string) (items : list pydict)
                  (operation : BringItemOperation).

(** Oldest event first. *)
Abbreviation trace := (list event).

Definition is_load_lists (ev : event) : bool :=
  match ev with LoadLists => true | _ => false end.

(** The endpoints that read or change the items of one list. *)
Definition is_item_request (ev : event) : bool :=
  match ev with
  | GetList _ | SaveItem _ _ _ | CompleteItem _ _ | RemoveItem _ _
  | BatchUpdateList _ _ _ => true
  | _ => false
  end.

(** Any request to the vendor service (opening and closing the local HTTP
    session object is not one). *)
Definition is_request (ev : event) : bool :=
  match ev with
  | SessionOpen _ | SessionClose _ => false
  | _ => true
  end.

(** The sessions that were opened and not closed since. *)
Definition track_session (opened : list nat) (ev : event) : list nat :=
  match ev with
  | SessionOpen sid => opened ++ [sid]
  | SessionClose sid => filter (λ x, x ≠ sid) opened
  | _ => opened
  end.

Definition open_sessions (h : trace) : list nat := foldl track_session [] h.

(** ** The environment: the Python runtime and the vendor service

    Nothing in the repository fixes what the service answers, so the answers
    are a parameter.  An answer may depend on everything that happened before
    (the history) and on the request.  A failing call is an error message,
    which reaches the caller as a [TransportError]. *)
Class Env := {
  (** [str.lower] *)
  lower : string → string;
  (** [os.getenv] *)
  getenv : string → option string;
  (** [login], [save_item], [complete_item], [remove_item] and
      [batch_update_list]: they answer nothing or fail. *)
  command_reply : trace → event → option string;
  load_lists_reply : trace → string + load_lists_response;
  get_list_reply : trace → string → string + ListContents
}.

(** ** The monad of methods *)

Inductive result (A : Type) :=
| Ok (a : A)
| Raise (e : exn).
Arguments Ok {A} a.
Arguments Raise {A} e.

Definition M (Self A : Type) : Type := Self → trace → result A * Self * trace.

Section Monad.
Context {Self : Type}.

Definition ret {A} (a : A) : M Self A := λ self h, (Ok a, self, h).

Definition bind {A B} (m : M Self A) (k : A → M Self B) : M Self B :=
  λ self h,
    match m self h with
    | (Ok a, self', h') => k a self' h'
    | (Raise e, self', h') => (Raise e, self', h')
    end.

Definition raise {A} (e : exn) : M Self A := λ self h, (Raise e, self, h).

(** Read [self]. *)
Definition this : M Self Self := λ self h, (Ok self, self, h).

(** Assign to fields of [self]. *)
Definition assign (f : Self → Self) : M Self unit :=
  λ self h, (Ok tt, f self, h).

Definition history : M Self trace := λ self h, (Ok h, self, h).

(** A computation that touches neither the object nor the service. *)
Definition pure {A} (r : result A) : M Self A := λ self h, (r, self, h).

Definition emit (ev : event) : M Self unit :=
  λ self h, (Ok tt, self, h ++ [ev]).

(** [try: m finally: fin]: [fin] runs whatever the outcome of [m]; that
    outcome is kept, unless [fin] raises by itself. *)
Definition finally {A} (m : M Self A) (fin : M Self unit) : M Self A :=
  λ self h,
    match m self h with
    | (r, self', h') =>
        match fin self' h' with
        | (Ok _, self'', h'') => (r, self'', h'')
        | (Raise e, self'', h'') => (Raise e, self'', h'')
        end
    end.
End Monad.

#[global] Instance M_ret {Self} : MRet (M Self) := @ret Self.
#[global] Instance M_bind {Self} : MBind (M Self) := λ A B k m, bind m k.
#[global] Instance M_fmap {Self} : FMap (M Self) :=
  λ A B f m, bind m (λ a, ret (f a)).

(** Unfolding the plumbing of the monad in a goal. *)
Ltac unfold_M :=
  unfold fmap, M_fmap, mbind, M_bind, bind, mret, M_ret, ret, raise, this,
    assign, history, pure, emit, finally in *.

(** Requests to the vendor service.  The request is recorded whether it
    succeeds or not. *)
Section Requests.
Context `{Env} {Self : Type}.

Definition command (ev : event) : M Self unit :=
  λ self h,
    match command_reply h ev with
    | None => (Ok tt, self, h ++ [ev])
    | Some msg => (Raise (TransportError msg), self, h ++ [ev])
    end.

Definition load_lists : M Self load_lists_response :=
  λ self h,
    match load_lists_reply h with
    | inr response => (Ok response, self, h ++ [LoadLists])
    | inl msg => (Raise (TransportError msg), self, h ++ [LoadLists])
    end.

Definition get_list (list_uuid : string) : M Self ListContents :=
  λ self h,
    match get_list_reply h list_uuid with
    | inr items => (Ok items, self, h ++ [GetList list_uuid])
    | inl msg => (Raise (TransportError msg), self, h ++ [GetList list_uuid])
    end.
End Requests.

(** ** [class BringClient] *)

Module BringClient.

(** The [Bring] object of the vendor library, bound to a session. *)
Record Bring := mkBring {
  bring_session : nat;
  bring_email : string;
  bring_password : string
}.

Record t := mk {
  email : string;
  password : string;
  session : option nat;
  bring : option Bring;
  _lists_cache : option (list ListSummary)
}.

Definition set_session (v : option nat) (self : t) : t :=
  mk (email self) (password self) v (bring self) (_lists_cache self).
Definition set_bring (v : option Bring) (self : t) : t :=
  mk (email self) (password self) (session self) v (_lists_cache self).
Definition set_lists_cache (v : option (list ListSummary)) (self : t) : t :=
  mk (email self) (password self) (session self) (bring self) v.

Definition __init__ (email password : string) : t :=
  mk email password None None None.

Section Methods.
Context `{Env}.

Definition connect : M t unit :=
  self ← this;
  match session self with
  | None =>
      h ← history;
      let sid := length h in
      emit (SessionOpen sid);;
      assign (set_session (Some sid));;
      assign (set_bring (Some (mkBring sid (email self) (password self))));;
      command Login
  | Some _ => mret tt
  end.

Definition disconnect : M t unit :=
  self ← this;
  match session self with
  | Some sid =>
      emit (SessionClose sid);;
      assign (set_session None);;
      assign (set_bring None)
  | None => mret tt
  end.

(** [if not self.bring: await self.connect()], the first statement of
    every method that talks to the service. *)
Definition ensure_connected : M t unit :=
  self ← this;
  match bring self with
  | None => connect
  | Some _ => mret tt
  end.

(** Evaluating [self.bring.m(..)]: an attribute of [None] cannot be
    read. *)
Definition the_bring : M t Bring :=
  self ← this;
  match bring self with
  | Some b => mret b
  | None => raise AttributeError
  end.

Definition get_lists (force_refresh : bool) : M t (list ListSummary) :=
  ensure_connected;;
  self ← this;
  match _lists_cache self, force_refresh with
  | Some cached, false => mret cached
  | _, _ =>
      _ ← the_bring;
      response ← load_lists;
      let fetched := default [] (lists response) in
      assign (set_lists_cache (Some fetched));;
      mret fetched
  end.

(** The loop of [get_list_by_name] over the catalog. *)
Fixpoint first_by_name (name : string) (lists : list ListSummary)
  : option ListSummary :=
  match lists with
  | [] => None
  | lst :: rest =>
      if String.eqb (lower (get_name lst)) (lower name)
      then Some lst
      else first_by_name name rest
  end.

Definition get_list_by_name (name : string) : M t (option ListSummary) :=
  lists ← get_lists false;
  mret (first_by_name name lists).

Definition get_items (list_uuid : string) : M t ListContents :=
  ensure_connected;;
  _ ← the_bring;
  items ← get_list list_uuid;
  mret items.

Definition add_item (list_uuid item_name specification : string)
  : M t bool :=
  ensure_connected;;
  _ ← the_bring;
  command (SaveItem list_uuid item_name specification);;
  mret true.

Definition complete_item (list_uuid item_name : string) : M t bool :=
  ensure_connected;;
  _ ← the_bring;
  command (CompleteItem list_uuid item_name);;
  mret true.

Definition remove_item (list_uuid item_name : string) : M t bool :=
  ensure_connected;;
  _ ← the_bring;
  command (RemoveItem list_uuid item_name);;
  mret true.

Definition batch_add_items (list_uuid : string) (items : list pydict)
  : M t bool :=
  ensure_connected;;
  _ ← the_bring;
  command (BatchUpdateList list_uuid items ADD);;
  mret true.

(** The dict [{"email": self.email, "list_count": len(lists)}]. *)
Definition get_user_info : M t pydict :=
  ensure_connected;;
  lists ← get_lists false;
  self ← this;
  mret ({[ "email" := VStr (email self);
           "list_count" := VInt (Z.of_nat (length lists)) ]} : pydict).

Definition __aenter__ : M t unit := connect.
Definition __aexit__ : M t unit := disconnect.

(** [async with client: body].  Python runs [__aexit__] on every way out
    of the body, and does not run it when [__aenter__] itself raises.
    [__aexit__] returns [None], so an exception of the body goes on. *)
Definition async_with {A} (body : M t A) : M t A :=
  __aenter__;;
  finally body __aexit__.
End Methods.
End BringClient.

(** ** [class BringIntegration] *)

Module BringIntegration.

Record t := mk {
  email : string;
  password : string;
  client : option BringClient.t;
  _default_list_uuid : option string
}.

Definition set_client (v : option BringClient.t) (self : t) : t :=
  mk (email self) (password self) v (_default_list_uuid self).
Definition set_default_list_uuid (v : option string) (self : t) : t :=
  mk (email self) (password self) (client self) v.

(** [a or b] on [Optional[str]] *)
Definition or_else (a b : option string) : option string :=
  if truthy a then a else b.

(** A method of [self.client] run from a method of the integration.  The
    client object is owned by the integration and by nobody else. *)
Definition on_client {A} (m : M BringClient.t A) : M t A :=
  λ self h,
    match client self with
    | Some c =>
        match m c h with
        | (r, c', h') => (r, set_client (Some c') self, h')
        end
    | None => (Raise AttributeError, self, h)
    end.

(** The batch normalisation of [add_items]: what one element of [items]
    appends to [formatted_items]. *)
Definition format_item (item : item_arg) : list pydict :=
  match item with
  | Scalar (VStr s) => [ {[ "itemId" := VStr s ]} ]
  | Dict d =>
      [ {[ "itemId" := default (default VNone (d !! "itemId")) (d !! "name");
           "spec" := default (default (VStr "") (d !! "specification"))
                             (d !! "spec") ]} ]
  | Scalar _ => []
  end.

(** The [for item in items] loop of [add_items]. *)
Definition format_items (items : list item_arg) : list pydict :=
  foldl (λ formatted_items item, formatted_items ++ format_item item)
        [] items.

(** ['\n'] *)
Definition newline : string := String (ascii_of_nat 10) "".

(** [lst['name']] *)
Definition subscript_name (lst : ListSummary) : result string :=
  match name lst with
  | Some n => Ok n
  | None => Raise (KeyError "name")
  end.

(** The [for lst in lists: ... else: ...] loop of [format_list_summary]
    that looks for the name of the default list. *)
Fixpoint default_display_name (default_list_uuid : option string)
         (lists : list ListSummary) : result string :=
  match lists with
  | [] => Ok "Shopping List"
  | lst :: rest =>
      if decide (Some (listUuid lst) = default_list_uuid)
      then subscript_name lst
      else default_display_name default_list_uuid rest
  end.

(** One line of the summary:
    [[
    spec = f" ({item['specification']})" if item.get('specification') else ""
    lines.append(f"  <mark> {item['name']}{spec}")
    ]] *)
Definition item_line (mark : string) (item : pydict) : result string :=
  let spec :=
    match item !! "specification" with
    | Some v => if py_bool v then " (" +:+ py_str v +:+ ")" else ""
    | None => ""
    end in
  match item !! "name" with
  | Some n => Ok ("  " +:+ mark +:+ " " +:+ py_str n +:+ spec)
  | None => Raise (KeyError "name")
  end.

Fixpoint item_lines (mark : string) (items : list pydict)
  : result (list string) :=
  match items with
  | [] => Ok []
  | item :: rest =>
      match item_line mark item with
      | Ok line =>
          match item_lines mark rest with
          | Ok lines => Ok (line :: lines)
          | Raise e => Raise e
          end
      | Raise e => Raise e
      end
  end.

(** The text of [format_list_summary], from [lines = [...]] to
    ["\n".join(lines)]. *)
Definition summary_text (display_name : string) (items : ListContents)
  : result string :=
  let title := "ğŸ“‹ " +:+ display_name +:+ newline in
  let purchase := default [] (items !! "purchase") in
  let recently := default [] (items !! "recently") in
  match
    match purchase with
    | [] => Ok ["ğŸ›’ To Buy: (empty)"]
    | _ => match item_lines "â˜" purchase with
           | Ok lines => Ok ("ğŸ›’ To Buy:" :: lines)
           | Raise e => Raise e
           end
    end
  with
  | Raise e => Raise e
  | Ok to_buy =>
      match
        match recently with
        | [] => Ok []
        | _ => match item_lines "âœ“" (take 5 recently) with
               | Ok lines => Ok ((newline +:+ "âœ… Recently Purchased:") :: lines)
               | Raise e => Raise e
               end
        end
      with
      | Raise e => Raise e
      | Ok purchased =>
          Ok (String.concat newline (title :: to_buy ++ purchased))
      end
  end.

Section Methods.
Context `{Env}.

Definition __init__ (email password : option string) : result t :=
  let email := or_else email (getenv "BRING_EMAIL") in
  let password := or_else password (getenv "BRING_PASSWORD") in
  if negb (truthy email) || negb (truthy password)
  then Raise CredentialsMissing
  else Ok (mk (default "" email) (default "" password) None None).

Definition initialize : M t unit :=
  self ← this;
  match client self with
  | None =>
      assign (set_client
                (Some (BringClient.__init__ (email self) (password self))));;
      on_client BringClient.connect
  | Some _ => mret tt
  end.

Definition cleanup : M t unit :=
  self ← this;
  match client self with
  | Some _ =>
      on_client BringClient.disconnect;;
      assign (set_client None)
  | None => mret tt
  end.

Definition __aenter__ : M t unit := initialize.
Definition __aexit__ : M t unit := cleanup.

(** [async with BringIntegration() as bring: body], with Python's rule:
    [__aexit__] runs on every way out of the body, and is not run when
    [__aenter__] raises. *)
Definition async_with {A} (body : M t A) : M t A :=
  __aenter__;;
  finally body __aexit__.

Definition get_lists : M t (list ListSummary) :=
  initialize;;
  on_client (BringClient.get_lists false).

Definition find_list (name : string) : M t (option ListSummary) :=
  initialize;;
  on_client (BringClient.get_list_by_name name).

(** [if lst:] is the test of a dict that has the key ['listUuid'], so it
    is the test against [None]. *)
Definition set_default_list (name : string) : M t bool :=
  lst ← find_list name;
  match lst with
  | Some lst =>
      assign (set_default_list_uuid (Some (listUuid lst)));;
      mret true
  | None => mret false
  end.

Definition _get_list_uuid (list_name : option string) : M t string :=
  self ← this;
  if truthy list_name then mret (default "" list_name)
  else if truthy (_default_list_uuid self)
       then mret (default "" (_default_list_uuid self))
       else raise NoDefaultListConfigured.

(** The block every item operation starts with, after [initialize]:
    [[
    if list_name:
        lst = await self.find_list(list_name)
        if not lst:
            raise ValueError(f"List '{list_name}' not found")
        list_uuid = lst['listUuid']
    else:
        list_uuid = self._get_list_uuid()
    ]] *)
Definition resolve (list_name : option string) : M t string :=
  if truthy list_name then
    lst ← find_list (default "" list_name);
    match lst with
    | None => raise (ListNotFound (default "" list_name))
    | Some lst => mret (listUuid lst)
    end
  else _get_list_uuid None.

Definition get_items (list_name : option string) : M t ListContents :=
  initialize;;
  list_uuid ← resolve list_name;
  on_client (BringClient.get_items list_uuid).

Definition add_item (item_name specification : string)
           (list_name : option string) : M t bool :=
  initialize;;
  list_uuid ← resolve list_name;
  on_client (BringClient.add_item list_uuid item_name specification).

Definition add_items (items : list item_arg) (list_name : option string)
  : M t bool :=
  initialize;;
  list_uuid ← resolve list_name;
  let formatted_items := format_items items in
  on_client (BringClient.batch_add_items list_uuid formatted_items).

Definition complete_item (item_name : string) (list_name : option string)
  : M t bool :=
  initialize;;
  list_uuid ← resolve list_name;
  on_client (BringClient.complete_item list_uuid item_name).

Definition remove_item (item_name : string) (list_name : option string)
  : M t bool :=
  initialize;;
  list_uuid ← resolve list_name;
  on_client (BringClient.remove_item list_uuid item_name).

Definition format_list_summary (list_name : option string) : M t string :=
  items ← get_items list_name;
  display_name ←
    (if truthy list_name then
       lst ← find_list (default "" list_name);
       match lst with
       | Some lst => pure (subscript_name lst)
       | None => mret "Shopping List"
       end
     else
       lists ← get_lists;
       self ← this;
       pure (default_display_name (_default_list_uuid self) lists));
  pure (summary_text display_name items).
End Methods.
End BringIntegration.

(** ** The public interface as data

    A session is driven by a caller that makes one call after another and may
    catch what a call raises.  The calls: *)

Inductive item_operation :=
| DoGetItems
| DoAddItem (item_name specification : string)
| DoAddItems (items : list item_arg)
| DoCompleteItem (item_name : string)
| DoRemoveItem (item_name : string).

Inductive call :=
| DoInitialize
| DoCleanup
| DoGetLists
| DoFindList (name : string)
| DoSetDefaultList (name : string)
| DoItem (op : item_operation) (list_name : option string)
| DoFormatListSummary (list_name : option string).

(** What a call returns. *)
Inductive value :=
| RNone
| RBool (b : bool)
| RLists (catalog : list ListSummary)
| RFound (lst : option ListSummary)
| RContents (items : ListContents)
| RText (text : string).

Section Calls.
Context `{Env}.

(** The request an item operation makes once the list is known. *)
Definition on_list (op : item_operation) (list_uuid : string)
  : M BringClient.t value :=
  match op with
  | DoGetItems => RContents <$> BringClient.get_items list_uuid
  | DoAddItem item_name specification =>
      RBool <$> BringClient.add_item list_uuid item_name specification
  | DoAddItems items =>
      RBool <$> BringClient.batch_add_items
                  list_uuid (BringIntegration.format_items items)
  | DoCompleteItem item_name =>
      RBool <$> BringClient.complete_item list_uuid item_name
  | DoRemoveItem item_name =>
      RBool <$> BringClient.remove_item list_uuid item_name
  end.

Definition perform_item (op : item_operation) (list_name : option string)
  : M BringIntegration.t value :=
  match op with
  | DoGetItems => RContents <$> BringIntegration.get_items list_name
  | DoAddItem item_name specification =>
      RBool <$> BringIntegration.add_item item_name specification list_name
  | DoAddItems items =>
      RBool <$> BringIntegration.add_items items list_name
  | DoCompleteItem item_name =>
      RBool <$> BringIntegration.complete_item item_name list_name
  | DoRemoveItem item_name =>
      RBool <$> BringIntegration.remove_item item_name list_name
  end.

Definition perform (c : call) : M BringIntegration.t value :=
  match c with
  | DoInitialize => BringIntegration.initialize;; mret RNone
  | DoCleanup => BringIntegration.cleanup;; mret RNone
  | DoGetLists => RLists <$> BringIntegration.get_lists
  | DoFindList name => RFound <$> BringIntegration.find_list name
  | DoSetDefaultList name => RBool <$> BringIntegration.set_default_list name
  | DoItem op list_name => perform_item op list_name
  | DoFormatListSummary list_name =>
      RText <$> BringIntegration.format_list_summary list_name
  end.

(** A caller that makes the calls of [calls] in turn and goes on after an
    exception; the outcomes are collected. *)
Fixpoint session (calls : list call) (self : BringIntegration.t) (h : trace)
  : list (result value) * BringIntegration.t * trace :=
  match calls with
  | [] => ([], self, h)
  | c :: rest =>
      match perform c self h with
      | (r, self', h') =>
          match session rest self' h' with
          | (rs, self'', h'') => (r :: rs, self'', h'')
          end
      end
  end.

(** [k] calls in a row; the first exception ends the row. *)
Fixpoint repeatedly {Self A} (k : nat) (m : M Self A) : M Self (list A) :=
  match k with
  | O => mret []
  | S k => a ← m; rest ← repeatedly k m; mret (a :: rest)
  end.
End Calls.

(** ** The vocabulary of the statements *)

Section Vocabulary.
Context `{Env}.

(** Two names are the same up to case when [str.lower] maps them to the
    same string: the comparison [get_list_by_name] makes. *)
Definition same_name (a b : string) : Prop := lower a = lower b.

(** [lst] is the first entry of [catalog] whose name is [n] up to case. *)
Definition first_named (n : string) (catalog : list ListSummary)
           (lst : ListSummary) : Prop :=
  ∃ i, catalog !! i = Some lst ∧ same_name (get_name lst) n ∧
       ∀ j other, (j < i)%nat → catalog !! j = Some other →
                  ¬ same_name (get_name other) n.

(** The client has its [Bring] object: [if not self.bring] is false. *)
Definition connected (self : BringClient.t) : Prop :=
  is_Some (BringClient.bring self).

(** The number of catalog queries in a history. *)
Definition catalog_queries (h : trace) : nat :=
  length (filter (λ ev, is_load_lists ev = true) h).

(** The service has no list to report: the field is missing from the
    response or holds the empty list. *)
Definition no_lists (response : load_lists_response) : Prop :=
  lists response = None ∨ lists response = Some [].

(** What [item.get("name", item.get("itemId"))] and
    [item.get("spec", item.get("specification", ""))] evaluate to. *)
Definition item_id_of (d : pydict) : pyval :=
  match d !! "name" with
  | Some v => v
  | None => match d !! "itemId" with Some v => v | None => VNone end
  end.

Definition spec_of (d : pydict) : pyval :=
  match d !! "spec" with
  | Some v => v
  | None => match d !! "specification" with Some v => v | None => VStr "" end
  end.

(** [isinstance(item, str) or isinstance(item, dict)] *)
Definition is_str_or_dict (item : item_arg) : bool :=
  match item with
  | Scalar (VStr _) | Dict _ => true
  | Scalar _ => false
  end.

(** An event of the connection step: no catalog query, no item request. *)
Definition no_catalog_or_item_request (ev : event) : Prop :=
  is_load_lists ev = false ∧ is_item_request ev = false.

(** The outcome is a raised [ValueError]. *)
Definition is_value_error (r : result value) : Prop :=
  match r with
  | Raise (ValueError _) => True
  | _ => False
  end.

(** [m] leaves [self._default_list_uuid] as it found it, whatever its
    outcome. *)
Definition keeps_default {A} (m : M BringIntegration.t A) : Prop :=
  ∀ self h r self' h',
    m self h = (r, self', h') →
    BringIntegration._default_list_uuid self' =
    BringIntegration._default_list_uuid self.

(** No call of a session has set the default list: every
    [set_default_list] among the calls has returned [False] or raised. *)
Definition never_set_default (calls : list call)
           (outcomes : list (result value)) : Prop :=
  Forall2 (λ c r, ∀ n, c = DoSetDefaultList n → r ≠ Ok (RBool true))
          calls outcomes.

(** The client holds the one open session, if any. *)
Definition client_owns (c : BringClient.t) (h : trace) : Prop :=
  open_sessions h = option_list (BringClient.session c).

(** The integration holds it through its client. *)
Definition owns (self : BringIntegration.t) (h : trace) : Prop :=
  open_sessions h =
  match BringIntegration.client self with
  | Some c => option_list (BringClient.session c)
  | None => []
  end.

(** A method of the client that keeps [client_owns]. *)
Definition tidy {A} (m : M BringClient.t A) : Prop :=
  ∀ c h r c' h', m c h = (r, c', h') → client_owns c h → client_owns c' h'.

(** A method of the integration that keeps [owns]. *)
Definition scoped {A} (m : M BringIntegration.t A) : Prop :=
  ∀ self h r self' h', m self h = (r, self', h') → owns self h → owns self' h'.

End Vocabulary.

(** ** A scripted environment, for running the code on concrete inputs *)

Definition lower_ascii (c : ascii) : ascii :=
  let n := nat_of_ascii c in
  if (65 <=? n)%nat && (n <=? 90)%nat then ascii_of_nat (n + 32) else c.

(** [str.lower] on ASCII text. *)
Fixpoint lower_string (s : string) : string :=
  match s with
  | EmptyString => EmptyString
  | String c rest => String (lower_ascii c) (lower_string rest)
  end.

(** A service whose login fails or not, which answers every catalog query
    with the same response, has no items on any list and accepts every
    change. *)
Definition scripted (login_fails : bool) (response : load_lists_response)
  : Env := {|
  lower := lower_string;
  getenv := λ _, None;
  command_reply := λ _ ev,
    match ev with
    | Login => if login_fails then Some "401 Unauthorized" else None
    | _ => None
    end;
  load_lists_reply := λ _, inr response;
  get_list_reply := λ _ _, inr ∅
|}.

Definition weekly : ListSummary := mkListSummary "a1" (Some "Weekly") None.

Definition weekly2 : ListSummary := mkListSummary "b2" (Some "WEEKLY") None.

Definition party : ListSummary := mkListSummary "c3" (Some "Party") None.

Definition serving (catalog : list ListSummary) : Env :=
  scripted false (mkResponse (Some catalog)).

(** A connected client with nothing cached, and the history that led there. *)
Definition fresh_client : BringClient.t :=
  BringClient.mk "me@example.org" "secret" (Some 0)
                 (Some (BringClient.mkBring 0 "me@example.org" "secret")) None.

Definition fresh_history : trace := [SessionOpen 0; Login].

(** A session object right after its constructor. *)
Definition new_integration : BringIntegration.t :=
  BringIntegration.mk "me@example.org" "secret" None None.

(** A service with two lists of the same name up to case. *)
Definition two_weeklies : Env := serving [party; weekly; weekly2].

(** The service of the scenario in the specification: one list, ["Weekly"],
    with the identifier ["a1"]. *)
Definition one_list : Env := serving [weekly].

(** A connected client that has cached an empty catalog. *)
Definition cached_empty : BringClient.t :=
  BringClient.set_lists_cache (Some []) fresh_client.

(** A session whose default is the list ["c3"], before any connection. *)
Definition with_default : BringIntegration.t :=
  BringIntegration.mk "me@example.org" "secret" None (Some "c3").

(** The session object once it has connected and cached [catalog], with
    [default] as its stored default. *)
Definition session_with (catalog : list ListSummary) (default : option string)
  : BringIntegration.t :=
  BringIntegration.mk "me@example.org" "secret"
    (Some (BringClient.set_lists_cache (Some catalog) fresh_client)) default.

Definition fetched_history : trace := [SessionOpen 0; Login; LoadLists].

(** A list whose identifier is the empty string. *)
Definition anonymous : ListSummary := mkListSummary "" (Some "X") None.

Definition one_anonymous : Env := serving [anonymous].

(** A service whose catalog response has no ['lists'] field. *)
Definition no_field : Env := scripted false (mkResponse None).

(** A client right after its constructor. *)
Definition unconnected_client : BringClient.t :=
  BringClient.__init__ "me@example.org" "secret".

(** [["Eggs", 42, {"name": "Milk", "specification": "1 liter"}]] and the
    batch it becomes. *)
Definition eggs_42_milk : list item_arg :=
  [ Scalar (VStr "Eggs");
    Scalar (VInt 42);
    Dict {[ "name" := VStr "Milk"; "specification" := VStr "1 liter" ]} ].

Definition eggs_milk_batch : list pydict :=
  [ {[ "itemId" := VStr "Eggs" ]};
    {[ "itemId" := VStr "Milk"; "spec" := VStr "1 liter" ]} ].

(** The contents of the docstring of [get_items]. *)
Definition milk_bread_eggs : ListContents :=
  {[ "purchase" :=
       [ {[ "name" := VStr "Milk"; "specification" := VStr "1 liter" ]};
         {[ "name" := VStr "Bread"; "specification" := VStr "" ]} ];
     "recently" :=
       [ {[ "name" := VStr "Eggs"; "specification" := VStr "6 pieces" ]} ] ]}.

(** A service with the list ["Weekly"] and these contents on it. *)
Definition stocked : Env := {|
  lower := lower_string;
  getenv := λ _, None;
  command_reply := λ _ _, None;
  load_lists_reply := λ _, inr (mkResponse (Some [weekly]));
  get_list_reply := λ _ _, inr milk_bread_eggs
|}.

(** A service that rejects the credentials. *)
Definition rejecting : Env := scripted true (mkResponse (Some [weekly])).

(** ** More vocabulary: what a method may do to the client and the history *)

Section Conduct.
Context `{Env}.

(** A client whose [Bring] object is missing has no session either, so that
    [connect] will make one: the state every method of the client leaves. *)
Definition consistent (c : BringClient.t) : Prop :=
  BringClient.bring c = None → BringClient.session c = None.

(** The integration holds no client, or a consistent one. *)
Definition well_formed (self : BringIntegration.t) : Prop :=
  ∀ c, BringIntegration.client self = Some c → consistent c.

(** The integration holds a client for which [I] holds. *)
Definition holds (I : BringClient.t → Prop) (self : BringIntegration.t)
  : Prop :=
  ∃ c, BringIntegration.client self = Some c ∧ I c.

(** The connected client has [catalog] in its cache. *)
Definition caches (catalog : list ListSummary) (c : BringClient.t) : Prop :=
  connected c ∧ BringClient._lists_cache c = Some catalog.

(** A method of the client that, started where [I] holds, ends where [I]
    holds, whatever its outcome, and adds only events of [P] to the
    history. *)
Definition confined {A} (I : BringClient.t → Prop) (P : event → Prop)
           (m : M BringClient.t A) : Prop :=
  ∀ c h r c' h',
    I c → m c h = (r, c', h') →
    I c' ∧ ∃ evs, h' = h ++ evs ∧ Forall P evs.

(** The same for a method of the integration, [I] being about its client. *)
Definition confines {A} (I : BringClient.t → Prop) (P : event → Prop)
           (m : M BringIntegration.t A) : Prop :=
  ∀ self h r self' h',
    holds I self → m self h = (r, self', h') →
    holds I self' ∧ ∃ evs, h' = h ++ evs ∧ Forall P evs.

(** Events that open or close the HTTP session, or log in. *)
Definition is_connection_event (ev : event) : bool :=
  match ev with
  | SessionOpen _ | SessionClose _ | Login => true
  | _ => false
  end.

Definition no_connection_event (ev : event) : Prop :=
  is_connection_event ev = false.

(** The request an item operation sends for the list [list_uuid]. *)
Definition request_of (op : item_operation) (list_uuid : string) : event :=
  match op with
  | DoGetItems => GetList list_uuid
  | DoAddItem item_name specification =>
      SaveItem list_uuid item_name specification
  | DoAddItems items =>
      BatchUpdateList list_uuid (BringIntegration.format_items items) ADD
  | DoCompleteItem item_name => CompleteItem list_uuid item_name
  | DoRemoveItem item_name => RemoveItem list_uuid item_name
  end.

(** What the service answers to the request of an item operation: an error
    message, or the value the operation returns. *)
Definition answer_of (op : item_operation) (list_uuid : string) (h : trace)
  : result value :=
  match op with
  | DoGetItems =>
      match get_list_reply h list_uuid with
      | inr items => Ok (RContents items)
      | inl msg => Raise (TransportError msg)
      end
  | _ =>
      match command_reply h (request_of op list_uuid) with
      | None => Ok (RBool true)
      | Some msg => Raise (TransportError msg)
      end
  end.

End Conduct.

Section Resolving.
Context `{Env}.

(** What the resolution block of an item operation yields, given the
    catalog, the stored default and the [list_name] argument. *)
Definition resolution (catalog : list ListSummary)
           (default_list_uuid list_name : option string) : result string :=
  if truthy list_name then
    match BringClient.first_by_name (default "" list_name) catalog with
    | Some lst => Ok (listUuid lst)
    | None => Raise (ListNotFound (default "" list_name))
    end
  else if truthy default_list_uuid then Ok (default "" default_list_uuid)
  else Raise NoDefaultListConfigured.

End Resolving.

(** A service that accepts the login, reports the list ["Weekly"] and fails
    every item request. *)
Definition failing_items : Env := {|
  lower := lower_string;
  getenv := λ _, None;
  command_reply := λ _ ev,
    match ev with Login => None | _ => Some "503 Service Unavailable" end;
  load_lists_reply := λ _, inr (mkResponse (Some [weekly]));
  get_list_reply := λ _ _, inl "503 Service Unavailable"
|}.

Section Exceptions.
Context `{Env}.

(** The two errors of the resolution block, each with the [list_name] that
    can cause it. *)
Definition resolution_error (list_name : option string) (e : exn) : Prop :=
  (truthy list_name = false ∧ e = NoDefaultListConfigured) ∨
  (∃ n, list_name = Some n ∧ n ≠ "" ∧ e = ListNotFound n).

Definition transport_error (e : exn) : Prop := ∃ msg, e = TransportError msg.

(** What a call of the public interface can raise. *)
Definition may_raise (c : call) (e : exn) : Prop :=
  match c with
  | DoCleanup => False
  | DoInitialize | DoGetLists | DoFindList _ | DoSetDefaultList _ =>
      transport_error e
  | DoItem _ list_name => transport_error e ∨ resolution_error list_name e
  | DoFormatListSummary list_name =>
      transport_error e ∨ resolution_error list_name e ∨ e = KeyError "name"
  end.

(** A method of the client that keeps the client consistent and raises
    nothing but the errors of the transport. *)
Definition sound {A} (m : M BringClient.t A) : Prop :=
  ∀ c h r c' h',
    consistent c → m c h = (r, c', h') →
    consistent c' ∧ ∀ e, r = Raise e → transport_error e.

(** A method of the integration that, run when there is a client, keeps the
    integration well formed and with its client, and raises nothing but
    exceptions of [E]. *)
Definition guarded {A} (E : exn → Prop) (m : M BringIntegration.t A) : Prop :=
  ∀ self h r self' h',
    well_formed self → is_Some (BringIntegration.client self) →
    m self h = (r, self', h') →
    well_formed self' ∧ is_Some (BringIntegration.client self') ∧
    ∀ e, r = Raise e → E e.

(** A method that starts with [initialize]: running it is running
    [initialize] and then the method. *)
Definition starts_with_initialize {A} (m : M BringIntegration.t A) : Prop :=
  ∀ self h,
    m self h =
    match BringIntegration.initialize self h with
    | (Ok _, self0, h0) => m self0 h0
    | (Raise e, self0, h0) => (Raise e, self0, h0)
    end.

End Exceptions.

Section Summary.
Context `{Env}.

(** The item dict has the key ['name']. *)
Definition has_name (item : pydict) : Prop := is_Some (item !! "name").

#[global] Instance has_name_dec item : Decision (has_name item) :=
  decide (is_Some (item !! "name")).

(** The items [format_list_summary] renders: everything to buy, and the
    first five of the recently purchased. *)
Definition rendered_items (items : ListContents) : list pydict :=
  default [] (items !! "purchase") ++ take 5 (default [] (items !! "recently")).

End Summary.

(** A process whose environment has the two credentials, and the service of
    [one_list]. *)
Definition from_environment : Env := {|
  lower := lower_string;
  getenv := λ var,
    if String.eqb var "BRING_EMAIL" then Some "env@example.org"
    else if String.eqb var "BRING_PASSWORD" then Some "hunter2"
    else None;
  command_reply := λ _ _, None;
  load_lists_reply := λ _, inr (mkResponse (Some [weekly]));
  get_list_reply := λ _ _, inr ∅
|}.

(** ** A caller of the client that goes on after an exception *)

(** [k] calls of [m] in a row, each in a [try], the outcomes collected. *)
Fixpoint attempts {Self A} (k : nat) (m : M Self A) (self : Self) (h : trace)
  : list (result A) * Self * trace :=
  match k with
  | O => ([], self, h)
  | S k =>
      match m self h with
      | (r, self', h') =>
          match attempts k m self' h' with
          | (rs, self'', h'') => (r :: rs, self'', h'')
          end
      end
  end.

Definition is_raise {A} (r : result A) : bool :=
  match r with
  | Raise _ => true
  | Ok _ => false
  end.

(** The number of calls that raised. *)
Definition raised {A} (rs : list (result A)) : nat :=
  length (filter (λ r, is_raise r = true) rs).

(** A service that accepts the login and fails every catalog query. *)
Definition failing_catalog : Env := {|
  lower := lower_string;
  getenv := λ _, None;
  command_reply := λ _ _, None;
  load_lists_reply := λ _, inl "503 Service Unavailable";
  get_list_reply := λ _ _, inr ∅
|}.

(** * Properties *)

(** ** Name lookup *)

Section NameLookup.
Context `{Env}.

Lemma first_by_name_Some n catalog lst :
  BringClient.first_by_name n catalog = Some lst ↔ first_named n catalog lst.
Proof.
  revert lst. induction catalog as [|x rest IH]; intros lst; simpl.
  - split; [done|]. intros (i & Hi & _). by rewrite lookup_nil in Hi.
  - destruct (String.eqb_spec (lower (get_name x)) (lower n)) as [Heq|Hne].
    + split.
      * intros [= <-]. exists 0%nat. repeat split; [done|]. intros; lia.
      * intros (i & Hi & Hm & Hfirst). destruct i as [|i].
        { by simplify_eq/=. }
        exfalso. apply (Hfirst 0%nat x); [lia|done|done].
    + rewrite IH. split.
      * intros (i & Hi & Hm & Hfirst). exists (S i). repeat split; [done..|].
        intros [|j] other Hj Hlk; simplify_eq/=; [done|].
        apply (Hfirst j); [lia|done].
      * intros (i & Hi & Hm & Hfirst). destruct i as [|i].
        { by simplify_eq/=. }
        exists i. repeat split; [done..|].
        intros j other Hj Hlk. apply (Hfirst (S j)); [lia|done].
Qed.

Lemma first_by_name_None n catalog :
  BringClient.first_by_name n catalog = None ↔
  ∀ lst, lst ∈ catalog → ¬ same_name (get_name lst) n.
Proof.
  induction catalog as [|x rest IH]; simpl.
  - split; [|done]. intros _ lst Hin. by apply elem_of_nil in Hin.
  - destruct (String.eqb_spec (lower (get_name x)) (lower n)) as [Heq|Hne].
    + split; [done|]. intros Hall. exfalso. apply (Hall x); [left|done].
    + rewrite IH. split.
      * intros Hall lst [->|Hin]%elem_of_cons; [done|by apply Hall].
      * intros Hall lst Hin. apply Hall. by right.
Qed.

Lemma first_by_name_is_Some n catalog :
  is_Some (BringClient.first_by_name n catalog) ↔
  ∃ lst, lst ∈ catalog ∧ same_name (get_name lst) n.
Proof.
  split.
  - intros [lst (i & Hi & Hm & _)%first_by_name_Some].
    exists lst. split; [|done]. by eapply list_elem_of_lookup_2.
  - intros (lst & Hin & Hm).
    destruct (BringClient.first_by_name n catalog) as [found|] eqn:E; [by eexists|].
    exfalso. rewrite first_by_name_None in E. by apply (E lst).
Qed.

(** [get_list_by_name] is the catalog fetch followed by the scan. *)
Lemma get_list_by_name_unfold n self h :
  BringClient.get_list_by_name n self h =
  match BringClient.get_lists false self h with
  | (Ok catalog, self', h') =>
      (Ok (BringClient.first_by_name n catalog), self', h')
  | (Raise e, self', h') => (Raise e, self', h')
  end.
Proof. reflexivity. Qed.

(** C1.  Whenever the catalog fetch of [get_list_by_name n] yields
    [catalog], the method returns (it does not raise, and leaves the client
    as the fetch left it), and what it returns is an entry if and only if
    some entry of [catalog] has the name [n] up to case; that entry is then
    the first such entry in catalog order (so one entry, never none, when
    several share the name), and the result is [None] exactly when no entry
    matches. *)
Theorem C1_get_list_by_name_first_match n self h catalog self' h' :
  BringClient.get_lists false self h = (Ok catalog, self', h') →
  ∃ found,
    BringClient.get_list_by_name n self h = (Ok found, self', h') ∧
    (is_Some found ↔ ∃ lst, lst ∈ catalog ∧ same_name (get_name lst) n) ∧
    (∀ lst, found = Some lst ↔ first_named n catalog lst) ∧
    (found = None ↔ ∀ lst, lst ∈ catalog → ¬ same_name (get_name lst) n).
Proof.
  intros Hfetch. exists (BringClient.first_by_name n catalog).
  rewrite get_list_by_name_unfold, Hfetch.
  split; [done|]. split; [apply first_by_name_is_Some|].
  split; [intros lst; apply first_by_name_Some|apply first_by_name_None].
Qed.
End NameLookup.

(** C1 on a catalog where two entries share the name up to case: the lookup
    of ["weekly"] returns an entry, the first of the two. *)
Lemma C1_witness :
  ∃ found,
    @BringClient.get_list_by_name two_weeklies "weekly"
      fresh_client fresh_history
    = (Ok found,
       BringClient.set_lists_cache (Some [party; weekly; weekly2]) fresh_client,
       fresh_history ++ [LoadLists]) ∧
    (is_Some found ↔
       ∃ lst, lst ∈ [party; weekly; weekly2] ∧
              @same_name two_weeklies (get_name lst) "weekly") ∧
    (∀ lst, found = Some lst ↔
            @first_named two_weeklies "weekly" [party; weekly; weekly2] lst) ∧
    (found = None ↔
       ∀ lst, lst ∈ [party; weekly; weekly2] →
              ¬ @same_name two_weeklies (get_name lst) "weekly").
Proof.
  apply (@C1_get_list_by_name_first_match two_weeklies "weekly"
           fresh_client fresh_history [party; weekly; weekly2]).
  reflexivity.
Defined.

Example get_list_by_name_two_weeklies :
  @BringClient.get_list_by_name two_weeklies "weekly"
    fresh_client fresh_history
  = (Ok (Some weekly),
     BringClient.set_lists_cache (Some [party; weekly; weekly2]) fresh_client,
     fresh_history ++ [LoadLists]).
Proof. reflexivity. Qed.

(** ** The catalog cache *)

Section CatalogCache.
Context `{Env}.

(** On a connected client [get_lists] is the cache test and nothing else. *)
Lemma get_lists_connected force self h :
  connected self →
  BringClient.get_lists force self h =
  match BringClient._lists_cache self, force with
  | Some cached, false => (Ok cached, self, h)
  | _, _ =>
      match load_lists_reply h with
      | inr response =>
          let fetched := default [] (lists response) in
          (Ok fetched, BringClient.set_lists_cache (Some fetched) self,
           h ++ [LoadLists])
      | inl msg => (Raise (TransportError msg), self, h ++ [LoadLists])
      end
  end.
Proof.
  intros [b Hb].
  unfold BringClient.get_lists, BringClient.ensure_connected,
    BringClient.the_bring, load_lists.
  unfold_M. rewrite Hb.
  destruct (BringClient._lists_cache self), force; rewrite ?Hb; try done;
    by destruct (load_lists_reply h).
Qed.

(** What [connect] does, case by case. *)
Lemma connect_unfold self h :
  BringClient.connect self h =
  match BringClient.session self with
  | Some _ => (Ok tt, self, h)
  | None =>
      let sid := length h in
      let self' :=
        BringClient.set_bring
          (Some (BringClient.mkBring sid (BringClient.email self)
                                     (BringClient.password self)))
          (BringClient.set_session (Some sid) self) in
      match command_reply (h ++ [SessionOpen sid]) Login with
      | None => (Ok tt, self', h ++ [SessionOpen sid; Login])
      | Some msg =>
          (Raise (TransportError msg), self', h ++ [SessionOpen sid; Login])
      end
  end.
Proof.
  unfold BringClient.connect, command. unfold_M.
  destruct (BringClient.session self); [done|].
  rewrite <- !(app_assoc h). simpl.
  by destruct (command_reply _ _).
Qed.

(** [ensure_connected] sends no catalog query and no item request, and
    leaves the cache alone; on a connected client it does nothing. *)
Lemma ensure_connected_spec self h :
  ∃ r self' evs,
    BringClient.ensure_connected self h = (r, self', h ++ evs) ∧
    Forall (λ ev, is_load_lists ev = false ∧ is_item_request ev = false) evs ∧
    BringClient._lists_cache self' = BringClient._lists_cache self ∧
    (connected self → r = Ok tt ∧ self' = self ∧ evs = []).
Proof.
  unfold BringClient.ensure_connected. unfold_M.
  destruct (BringClient.bring self) as [b|] eqn:Hb.
  - exists (Ok tt), self, []. rewrite app_nil_r. by repeat split.
  - rewrite connect_unfold.
    destruct (BringClient.session self) as [sid|].
    + exists (Ok tt), self, []. rewrite app_nil_r.
      repeat split; try done; intros [? ?]; congruence.
    + simpl. destruct (command_reply _ _);
        eexists _, _, [SessionOpen _; Login];
        (split; [reflexivity|]);
        (split; [by repeat constructor|]);
        (split; [done|]); intros [? ?]; congruence.
Qed.

(** [get_lists] on any client: the connection step, then the cache test. *)
Lemma get_lists_unfold force self h :
  BringClient.get_lists force self h =
  match BringClient.ensure_connected self h with
  | (Ok _, self1, h1) =>
      match BringClient._lists_cache self1, force with
      | Some cached, false => (Ok cached, self1, h1)
      | _, _ =>
          match BringClient.bring self1 with
          | None => (Raise AttributeError, self1, h1)
          | Some _ =>
              match load_lists_reply h1 with
              | inr response =>
                  let fetched := default [] (lists response) in
                  (Ok fetched,
                   BringClient.set_lists_cache (Some fetched) self1,
                   h1 ++ [LoadLists])
              | inl msg =>
                  (Raise (TransportError msg), self1, h1 ++ [LoadLists])
              end
          end
      end
  | (Raise e, self1, h1) => (Raise e, self1, h1)
  end.
Proof.
  unfold BringClient.get_lists, BringClient.the_bring, load_lists. unfold_M.
  destruct (BringClient.ensure_connected self h) as [[[[]|e] self1] h1];
    [|done].
  destruct (BringClient._lists_cache self1), force,
    (BringClient.bring self1); try done; by destruct (load_lists_reply h1).
Qed.

Lemma catalog_queries_app h evs :
  catalog_queries (h ++ evs) = (catalog_queries h + catalog_queries evs)%nat.
Proof. unfold catalog_queries. by rewrite filter_app, length_app. Qed.

Lemma catalog_queries_none evs :
  Forall (λ ev, is_load_lists ev = false ∧ is_item_request ev = false) evs →
  catalog_queries evs = 0%nat.
Proof.
  unfold catalog_queries. induction 1 as [|ev evs [Hev _] _ IH]; [done|].
  rewrite filter_cons_False; [done|]. by rewrite Hev.
Qed.

(** Whatever the state of the client, one call of [get_lists] sends at most
    one catalog query, and none when there is a cached catalog and no
    refresh is forced; the cached catalog is then what a normal return
    gives. *)
Lemma get_lists_at_most_one_query force self h :
  ∃ r self' h',
    BringClient.get_lists force self h = (r, self', h') ∧
    (catalog_queries h' ≤ catalog_queries h + 1)%nat ∧
    ∀ cached,
      BringClient._lists_cache self = Some cached → force = false →
      catalog_queries h' = catalog_queries h ∧
      BringClient._lists_cache self' = Some cached ∧
      ∀ v, r = Ok v → v = cached.
Proof.
  rewrite get_lists_unfold.
  destruct (ensure_connected_spec self h)
    as (r1 & self1 & evs & -> & Hevs & Hcache & _).
  apply catalog_queries_none in Hevs.
  assert (Hone : catalog_queries [LoadLists] = 1%nat) by done.
  destruct r1 as [[]|e]; [|eexists _, _, _; split; [reflexivity|]].
  - destruct (BringClient._lists_cache self1) as [c|] eqn:Hc, force;
      try (destruct (BringClient.bring self1);
           [destruct (load_lists_reply _)|]);
      eexists _, _, _; (split; [reflexivity|]);
      rewrite ?catalog_queries_app, ?Hevs, ?Hone;
      (split; [lia|]); intros cached Hcached Hforce; try done;
      try congruence.
    rewrite Hcache in Hc. simplify_eq.
    repeat split; [lia|congruence|congruence].
  - rewrite catalog_queries_app, Hevs. split; [lia|].
    intros cached Hc _. repeat split; [lia|congruence|done].
Qed.

Lemma ensure_connected_unfold self h :
  BringClient.ensure_connected self h =
  match BringClient.bring self with
  | Some _ => (Ok tt, self, h)
  | None => BringClient.connect self h
  end.
Proof.
  unfold BringClient.ensure_connected. unfold_M.
  by destruct (BringClient.bring self).
Qed.

(** The connection step: nothing on a client that has its [Bring] object or
    a session, and otherwise a new session and a login. *)
Lemma ensure_connected_step self h r1 self1 h1 :
  BringClient.ensure_connected self h = (r1, self1, h1) →
  (h1 = h ∨ h1 = h ++ [SessionOpen (length h); Login]) ∧
  catalog_queries h1 = catalog_queries h ∧
  BringClient._lists_cache self1 = BringClient._lists_cache self ∧
  (connected self → r1 = Ok tt ∧ self1 = self ∧ h1 = h) ∧
  (consistent self → r1 = Ok tt → connected self1).
Proof.
  rewrite ensure_connected_unfold.
  destruct (BringClient.bring self) as [b|] eqn:Hb.
  { intros [= <- <- <-]. repeat split; [by left|]. intros _ _. by exists b. }
  rewrite connect_unfold.
  destruct (BringClient.session self) as [sid|] eqn:Hs.
  { intros [= <- <- <-]. repeat split; try (by left);
      try (intros [? ?]; congruence).
    intros Hcons. specialize (Hcons Hb). congruence. }
  simpl. intros Hrun.
  assert (Hh1 : h1 = h ++ [SessionOpen (length h); Login]).
  { by destruct (command_reply _ _); injection Hrun as <- <- <-. }
  assert (Hself1 : self1 =
            BringClient.set_bring
              (Some (BringClient.mkBring (length h) (BringClient.email self)
                                         (BringClient.password self)))
              (BringClient.set_session (Some (length h)) self)).
  { by destruct (command_reply _ _); injection Hrun as <- <- <-. }
  subst h1 self1. split; [by right|]. split.
  { by rewrite catalog_queries_app. }
  split; [done|]. split; [intros [? ?]; congruence|].
  intros _ _. by eexists.
Qed.

(** A connection step that has succeeded does nothing when it is made
    again. *)
Lemma ensure_connected_again c h u c1 h1 :
  BringClient.ensure_connected c h = (Ok u, c1, h1) →
  BringClient.ensure_connected c1 h1 = (Ok tt, c1, h1).
Proof.
  rewrite !ensure_connected_unfold.
  destruct (BringClient.bring c) as [b|] eqn:Hb.
  - intros [= _ <- <-]. by rewrite Hb.
  - rewrite connect_unfold.
    destruct (BringClient.session c) as [sid|] eqn:Hs.
    + intros [= _ <- <-]. by rewrite Hb, connect_unfold, Hs.
    + simpl. by destruct (command_reply _ _); intros [= _ <- <-].
Qed.

(** A catalog that [get_lists] has returned is in the cache, and the next
    [get_lists()] returns it and does nothing else. *)
Lemma get_lists_again force self h v self2 h2 :
  BringClient.get_lists force self h = (Ok v, self2, h2) →
  BringClient._lists_cache self2 = Some v ∧
  BringClient.get_lists false self2 h2 = (Ok v, self2, h2).
Proof.
  rewrite get_lists_unfold.
  destruct (BringClient.ensure_connected self h) as [[r1 self1] h1] eqn:E1.
  destruct r1 as [u|e1]; [|done].
  apply ensure_connected_again in E1.
  assert (Hcached : ∀ cached,
    BringClient._lists_cache self1 = Some cached →
    BringClient.get_lists false self1 h1 = (Ok cached, self1, h1)).
  { intros cached Hc. by rewrite get_lists_unfold, E1, Hc. }
  assert (Hfetched : ∀ b fetched,
    BringClient.bring self1 = Some b →
    BringClient.get_lists false
      (BringClient.set_lists_cache (Some fetched) self1) (h1 ++ [LoadLists])
    = (Ok fetched, BringClient.set_lists_cache (Some fetched) self1,
       h1 ++ [LoadLists])).
  { intros b fetched Hb. rewrite get_lists_unfold, ensure_connected_unfold.
    simpl. by rewrite Hb. }
  destruct (BringClient._lists_cache self1) as [cached|] eqn:Hc, force;
    try (intros [= <- <- <-]; by auto);
    (destruct (BringClient.bring self1) as [b|] eqn:Hb; [|done]);
    (destruct (load_lists_reply h1) as [msg|response]; [done|]);
    intros [= <- <- <-]; (split; [done|]); by eapply Hfetched.
Qed.

Lemma attempts_idle {Self A} k (m : M Self A) self h r :
  m self h = (r, self, h) →
  attempts k m self h = (replicate k r, self, h).
Proof.
  intros Hm. induction k as [|k IH]; [done|]. simpl. by rewrite Hm, IH.
Qed.

Lemma repeatedly_idle {Self A} k (m : M Self A) self h v :
  m self h = (Ok v, self, h) →
  repeatedly k m self h = (Ok (replicate k v), self, h).
Proof.
  intros Hm. induction k as [|k IH]; [done|].
  simpl. unfold_M. by rewrite Hm, IH.
Qed.

(** A caller that stops at the first exception sends at most one catalog
    query. *)
Lemma repeatedly_queries k self h :
  ∃ r self' h',
    repeatedly k (BringClient.get_lists false) self h = (r, self', h') ∧
    (catalog_queries h' ≤ catalog_queries h + 1)%nat.
Proof.
  destruct k as [|k]; [eexists _, _, _; split; [reflexivity|lia]|].
  simpl. unfold_M.
  destruct (get_lists_at_most_one_query false self h)
    as (r & self1 & h1 & E1 & Hone & _).
  rewrite E1. destruct r as [v|e].
  - destruct (get_lists_again _ _ _ _ _ _ E1) as [_ Hidle].
    rewrite (repeatedly_idle k _ _ _ _ Hidle).
    by eexists _, _, _.
  - by eexists _, _, _.
Qed.

(** A caller that goes on after every exception sends at most one catalog
    query more than it has seen calls raise. *)
Lemma attempts_queries k self h rs self' h' :
  attempts k (BringClient.get_lists false) self h = (rs, self', h') →
  (catalog_queries h' ≤ catalog_queries h + raised rs + 1)%nat.
Proof.
  revert self h rs self' h'.
  induction k as [|k IH]; intros self h rs self' h'; simpl.
  { intros [= <- <- <-]. lia. }
  destruct (get_lists_at_most_one_query false self h)
    as (r & self1 & h1 & E1 & Hone & _).
  rewrite E1.
  destruct r as [v|e].
  - destruct (get_lists_again _ _ _ _ _ _ E1) as [_ Hidle].
    rewrite (attempts_idle k _ _ _ _ Hidle).
    intros [= <- <- <-]. lia.
  - destruct (attempts k (BringClient.get_lists false) self1 h1)
      as [[rs1 self2] h2] eqn:E2.
    apply IH in E2. intros [= <- <- <-].
    unfold raised in *. rewrite filter_cons_True by done. simpl. lia.
Qed.

(** C2, as the code has it.  [get_lists] starts with the connection step,
    [if not self.bring: await self.connect()]: nothing on a connected
    client, a new session and a login otherwise, and never a catalog query.
    - When the connection step raises, [get_lists] raises the same and asks
      for nothing, forced or not.
    - With a cached catalog, empty or not, and no forced refresh, it returns
      the cached catalog and sends nothing.
    - With no cached catalog ([None]) or with [force_refresh], it sends
      exactly one catalog query and nothing else; when the query is
      answered, the lists of the answer replace the cache and are returned,
      and when the query fails the failure goes to the caller and the cache
      stays as it was.
    - Hence, once a call has returned a catalog, any number of calls
      [get_lists(False)] after it return that catalog and send nothing.
      Over any number of calls [get_lists(False)], a caller that stops at
      the first exception sends at most one catalog query, and a caller
      that goes on after every exception sends at most one catalog query
      more than the number of calls that raised. *)
Theorem C2_get_lists_cache force self h r1 self1 h1 :
  BringClient.ensure_connected self h = (r1, self1, h1) →
  ((h1 = h ∨ h1 = h ++ [SessionOpen (length h); Login]) ∧
   catalog_queries h1 = catalog_queries h ∧
   BringClient._lists_cache self1 = BringClient._lists_cache self ∧
   (connected self → r1 = Ok tt ∧ self1 = self ∧ h1 = h) ∧
   (consistent self → r1 = Ok tt → connected self1)) ∧
  (∀ e, r1 = Raise e →
        BringClient.get_lists force self h = (Raise e, self1, h1)) ∧
  (∀ cached,
      r1 = Ok tt →
      BringClient._lists_cache self = Some cached → force = false →
      BringClient.get_lists force self h = (Ok cached, self1, h1)) ∧
  (r1 = Ok tt → connected self1 →
   BringClient._lists_cache self = None ∨ force = true →
     BringClient.get_lists force self h =
     match load_lists_reply h1 with
     | inr response =>
         (Ok (default [] (lists response)),
          BringClient.set_lists_cache
            (Some (default [] (lists response))) self1,
          h1 ++ [LoadLists])
     | inl msg => (Raise (TransportError msg), self1, h1 ++ [LoadLists])
     end) ∧
  (∀ v self2 h2,
      BringClient.get_lists force self h = (Ok v, self2, h2) →
      BringClient._lists_cache self2 = Some v ∧
      ∀ k, attempts k (BringClient.get_lists false) self2 h2
           = (replicate k (Ok v), self2, h2)) ∧
  (∀ k, ∃ r self' h',
      repeatedly k (BringClient.get_lists false) self h = (r, self', h') ∧
      (catalog_queries h' ≤ catalog_queries h + 1)%nat) ∧
  (∀ k rs self' h',
      attempts k (BringClient.get_lists false) self h = (rs, self', h') →
      (catalog_queries h' ≤ catalog_queries h + raised rs + 1)%nat).
Proof.
  intros E1.
  destruct (ensure_connected_step _ _ _ _ _ E1)
    as (Hh1 & Hq & Hcache & Hconn & Hcons).
  split; [done|]. split; [|split; [|split; [|split; [|split]]]].
  - intros e ->. by rewrite get_lists_unfold, E1.
  - intros cached -> Hc ->. rewrite get_lists_unfold, E1.
    rewrite Hcache, Hc. done.
  - intros -> [b Hb] Hmiss. rewrite get_lists_unfold, E1, Hcache, Hb.
    destruct (BringClient._lists_cache self), force, Hmiss; try done;
      by destruct (load_lists_reply h1).
  - intros v self2 h2 Hrun.
    destruct (get_lists_again _ _ _ _ _ _ Hrun) as [Hc Hidle].
    split; [done|]. intros k. by apply attempts_idle.
  - intros k. apply repeatedly_queries.
  - intros k rs self' h'. apply attempts_queries.
Qed.
End CatalogCache.

(** C2 on a client right after its constructor: a session, a login, one
    query; the answer is cached and returned, and three more calls send
    nothing. *)
Lemma C2_witness :
  @BringClient.get_lists one_list false unconnected_client []
  = (Ok [weekly], BringClient.set_lists_cache (Some [weekly]) fresh_client,
     [SessionOpen 0; Login; LoadLists]) ∧
  attempts 3 (@BringClient.get_lists one_list false)
    (BringClient.set_lists_cache (Some [weekly]) fresh_client)
    [SessionOpen 0; Login; LoadLists]
  = ([Ok [weekly]; Ok [weekly]; Ok [weekly]],
     BringClient.set_lists_cache (Some [weekly]) fresh_client,
     [SessionOpen 0; Login; LoadLists]).
Proof.
  assert (Hstep : @BringClient.ensure_connected one_list unconnected_client []
                  = (Ok tt, fresh_client, fresh_history)) by reflexivity.
  destruct (@C2_get_lists_cache one_list false unconnected_client []
              (Ok tt) fresh_client fresh_history Hstep)
    as (_ & _ & _ & Hfetch & Hagain & _ & _).
  assert (Hrun : @BringClient.get_lists one_list false unconnected_client []
                 = (Ok [weekly],
                    BringClient.set_lists_cache (Some [weekly]) fresh_client,
                    [SessionOpen 0; Login; LoadLists])).
  { apply (Hfetch eq_refl); [by eexists|by left]. }
  split; [exact Hrun|].
  exact (proj2 (Hagain _ _ _ Hrun) 3%nat).
Defined.

(** C2 as stated fails, in three ways.  With an empty catalog in the cache
    and no forced refresh, [get_lists] does not query the service, although
    the service would answer with one list; the cache is not replaced and
    the empty catalog is returned.  With a forced refresh on a client whose
    login is rejected, no catalog query is sent.  With a service that fails
    the catalog query, three calls [get_lists(False)] of a caller that goes
    on after each exception send three catalog queries. *)
Lemma C2_counterexample :
  (BringClient._lists_cache cached_empty = Some [] ∧
   @load_lists_reply one_list fresh_history
   = inr (mkResponse (Some [weekly])) ∧
   @BringClient.get_lists one_list false cached_empty fresh_history
   = (Ok [], cached_empty, fresh_history) ∧
   ¬ ∃ self',
       @BringClient.get_lists one_list false cached_empty fresh_history
       = (Ok [weekly], self', fresh_history ++ [LoadLists])) ∧
  (@BringClient.get_lists rejecting true unconnected_client []
   = (Raise (TransportError "401 Unauthorized"), fresh_client,
      [SessionOpen 0; Login]) ∧
   catalog_queries [SessionOpen 0; Login] = 0%nat) ∧
  (attempts 3
     (@BringClient.get_lists failing_catalog false) fresh_client fresh_history
   = ([Raise (TransportError "503 Service Unavailable");
       Raise (TransportError "503 Service Unavailable");
       Raise (TransportError "503 Service Unavailable")],
      fresh_client,
      fresh_history ++ [LoadLists; LoadLists; LoadLists]) ∧
   catalog_queries (fresh_history ++ [LoadLists; LoadLists; LoadLists])
   = (catalog_queries fresh_history + 3)%nat).
Proof.
  split; [|split].
  - split; [done|]. split; [done|]. split; [done|].
    intros [self' Hrun]. vm_compute in Hrun. discriminate Hrun.
  - split; reflexivity.
  - split; reflexivity.
Qed.

(** ** The integration, method by method *)

Section Integration.
Context `{Env}.

Lemma initialize_unfold self h :
  BringIntegration.initialize self h =
  match BringIntegration.client self with
  | Some _ => (Ok tt, self, h)
  | None =>
      match BringClient.connect
              (BringClient.__init__ (BringIntegration.email self)
                                    (BringIntegration.password self)) h with
      | (r, c, h') => (r, BringIntegration.set_client (Some c) self, h')
      end
  end.
Proof.
  unfold BringIntegration.initialize, BringIntegration.on_client. unfold_M.
  destruct (BringIntegration.client self); [done|]. simpl.
  by destruct (BringClient.connect _ h) as [[[[]|e] c] h'].
Qed.

(** [initialize] leaves a client in place whether the login succeeds or
    not, sends neither a catalog query nor an item request, and does
    nothing when there is a client already. *)
Lemma initialize_spec self h :
  ∃ r self' evs,
    BringIntegration.initialize self h = (r, self', h ++ evs) ∧
    is_Some (BringIntegration.client self') ∧
    BringIntegration._default_list_uuid self' =
      BringIntegration._default_list_uuid self ∧
    Forall no_catalog_or_item_request evs ∧
    (is_Some (BringIntegration.client self) →
     r = Ok tt ∧ self' = self ∧ evs = []).
Proof.
  rewrite initialize_unfold.
  destruct (BringIntegration.client self) as [c|] eqn:Hc.
  - exists (Ok tt), self, []. rewrite app_nil_r, Hc. by repeat split.
  - rewrite connect_unfold. simpl.
    destruct (command_reply _ _);
      eexists _, _, [SessionOpen _; Login];
      (split; [reflexivity|]); (split; [by eexists|]);
      (split; [done|]); (split; [by repeat constructor|]);
      intros [? ?]; congruence.
Qed.

Lemma initialize_again self h :
  is_Some (BringIntegration.client self) →
  BringIntegration.initialize self h = (Ok tt, self, h).
Proof. intros [c Hc]. by rewrite initialize_unfold, Hc. Qed.

(** [find_list] is [get_lists] followed by the scan of the catalog. *)
Lemma find_list_unfold n self h :
  BringIntegration.find_list n self h =
  match BringIntegration.get_lists self h with
  | (Ok catalog, self', h') =>
      (Ok (BringClient.first_by_name n catalog), self', h')
  | (Raise e, self', h') => (Raise e, self', h')
  end.
Proof.
  unfold BringIntegration.find_list, BringIntegration.get_lists,
    BringIntegration.on_client. unfold_M.
  destruct (BringIntegration.initialize self h) as [[[[]|e] self0] h0];
    [|done].
  destruct (BringIntegration.client self0) as [c|]; [|done].
  rewrite get_list_by_name_unfold.
  by destruct (BringClient.get_lists false c h0) as [[[catalog|e] c'] h'].
Qed.

(** [set_default_list] is [find_list] followed by the assignment. *)
Lemma set_default_list_unfold n self h :
  BringIntegration.set_default_list n self h =
  match BringIntegration.find_list n self h with
  | (Ok (Some lst), self', h') =>
      (Ok true,
       BringIntegration.set_default_list_uuid (Some (listUuid lst)) self',
       h')
  | (Ok None, self', h') => (Ok false, self', h')
  | (Raise e, self', h') => (Raise e, self', h')
  end.
Proof.
  unfold BringIntegration.set_default_list. unfold_M.
  by destruct (BringIntegration.find_list n self h)
    as [[[[lst|]|e] self'] h'].
Qed.

(** Every item operation is [initialize], the resolution of the list and
    one request for that list. *)
Lemma perform_item_unfold op list_name self h :
  perform_item op list_name self h =
  match BringIntegration.initialize self h with
  | (Ok _, self0, h0) =>
      match BringIntegration.resolve list_name self0 h0 with
      | (Ok list_uuid, self1, h1) =>
          BringIntegration.on_client (on_list op list_uuid) self1 h1
      | (Raise e, self1, h1) => (Raise e, self1, h1)
      end
  | (Raise e, self0, h0) => (Raise e, self0, h0)
  end.
Proof.
  destruct op; simpl;
    unfold BringIntegration.get_items, BringIntegration.add_item,
      BringIntegration.add_items, BringIntegration.complete_item,
      BringIntegration.remove_item, BringIntegration.on_client;
    unfold_M;
    (destruct (BringIntegration.initialize self h) as [[[[]|e] self0] h0];
     [|done]);
    (destruct (BringIntegration.resolve list_name self0 h0)
       as [[[list_uuid|e] self1] h1]; [|done]);
    (destruct (BringIntegration.client self1) as [c|]; [|done]);
    by repeat case_match; simplify_eq.
Qed.
End Integration.

(** ** The default list is touched by one assignment only *)

Section Frame.
Context `{Env}.

Lemma keeps_ret {A} (a : A) : keeps_default (mret a).
Proof. by intros self h r self' h' [= _ <- _]. Qed.

Lemma keeps_raise {A} e : keeps_default (raise (A := A) e).
Proof. by intros self h r self' h' [= _ <- _]. Qed.

Lemma keeps_this : keeps_default this.
Proof. by intros self h r self' h' [= _ <- _]. Qed.

Lemma keeps_pure {A} (r : result A) : keeps_default (pure r).
Proof. by intros self h r' self' h' [= _ <- _]. Qed.

Lemma keeps_bind {A B} (m : M BringIntegration.t A)
      (k : A → M BringIntegration.t B) :
  keeps_default m → (∀ a, keeps_default (k a)) → keeps_default (m ≫= k).
Proof.
  intros Hm Hk self h r self' h'. unfold_M.
  destruct (m self h) as [[[a|e] self1] h1] eqn:E1.
  - intros E2. rewrite (Hk _ _ _ _ _ _ E2). by eapply Hm.
  - intros [= _ <- _]. by eapply Hm.
Qed.

Lemma keeps_fmap {A B} (f : A → B) (m : M BringIntegration.t A) :
  keeps_default m → keeps_default (f <$> m).
Proof. intros Hm. apply (keeps_bind m); [done|]. intros a. apply keeps_ret. Qed.

Lemma keeps_on_client {A} (m : M BringClient.t A) :
  keeps_default (BringIntegration.on_client m).
Proof.
  intros self h r self' h'. unfold BringIntegration.on_client.
  destruct (BringIntegration.client self) as [c|].
  - destruct (m c h) as [[r1 c1] h1]. by intros [= _ <- _].
  - by intros [= _ <- _].
Qed.

Lemma keeps_set_client v :
  keeps_default (assign (BringIntegration.set_client v)).
Proof. by intros self h r self' h' [= _ <- _]. Qed.

Create HintDb frame discriminated.
Hint Resolve keeps_ret keeps_raise keeps_this keeps_pure keeps_on_client
  keeps_set_client keeps_fmap : frame.
Hint Extern 2 (keeps_default (_ ≫= _)) =>
  apply keeps_bind; [|intros ?] : frame.
Hint Extern 3 (keeps_default (match ?x with _ => _ end)) =>
  destruct x : frame.

Lemma keeps_initialize : keeps_default BringIntegration.initialize.
Proof. unfold BringIntegration.initialize. auto 10 with frame. Qed.

Lemma keeps_cleanup : keeps_default BringIntegration.cleanup.
Proof. unfold BringIntegration.cleanup. auto 10 with frame. Qed.

Hint Resolve keeps_initialize keeps_cleanup : frame.

Lemma keeps_get_lists : keeps_default BringIntegration.get_lists.
Proof. unfold BringIntegration.get_lists. auto 10 with frame. Qed.

Lemma keeps_find_list n : keeps_default (BringIntegration.find_list n).
Proof. unfold BringIntegration.find_list. auto 10 with frame. Qed.

Lemma keeps__get_list_uuid list_name :
  keeps_default (BringIntegration._get_list_uuid list_name).
Proof. unfold BringIntegration._get_list_uuid. auto 10 with frame. Qed.

Hint Resolve keeps_get_lists keeps_find_list keeps__get_list_uuid : frame.

Lemma keeps_resolve list_name :
  keeps_default (BringIntegration.resolve list_name).
Proof. unfold BringIntegration.resolve. auto 10 with frame. Qed.

Hint Resolve keeps_resolve : frame.

Lemma keeps_perform_item op list_name :
  keeps_default (perform_item op list_name).
Proof.
  destruct op; simpl;
    unfold BringIntegration.get_items, BringIntegration.add_item,
      BringIntegration.add_items, BringIntegration.complete_item,
      BringIntegration.remove_item;
    auto 10 with frame.
Qed.

Lemma keeps_format_list_summary list_name :
  keeps_default (BringIntegration.format_list_summary list_name).
Proof.
  unfold BringIntegration.format_list_summary, BringIntegration.get_items.
  auto 12 with frame.
Qed.

(** [async with] around a body that keeps the default keeps it. *)
Lemma keeps_async_with {A} (body : M BringIntegration.t A) :
  keeps_default body → keeps_default (BringIntegration.async_with body).
Proof.
  intros Hbody. unfold BringIntegration.async_with.
  apply keeps_bind; [apply keeps_initialize|]. intros _.
  intros self h r self' h'. unfold finally.
  destruct (body self h) as [[r1 self1] h1] eqn:E1.
  destruct (BringIntegration.__aexit__ self1 h1) as [[[[]|e] self2] h2] eqn:E2;
    intros [= _ <- _];
    rewrite (keeps_cleanup _ _ _ _ _ E2); by eapply Hbody.
Qed.

(** The frame property of a single call; shared by the statements on
    sessions below. *)
Lemma perform_keeps_default c self h r self' h' :
  perform c self h = (r, self', h') →
  (∀ n, c = DoSetDefaultList n → r ≠ Ok (RBool true)) →
  BringIntegration._default_list_uuid self' =
  BringIntegration._default_list_uuid self.
Proof.
  intros Hrun Hnot.
  destruct c as [| | |n|n|op list_name|list_name]; simpl in Hrun.
  - revert Hrun. apply keeps_bind; [apply keeps_initialize|].
    intros; apply keeps_ret.
  - revert Hrun. apply keeps_bind; [apply keeps_cleanup|].
    intros; apply keeps_ret.
  - revert Hrun. apply keeps_fmap, keeps_get_lists.
  - revert Hrun. apply keeps_fmap, keeps_find_list.
  - revert Hrun. unfold_M. rewrite set_default_list_unfold.
    destruct (BringIntegration.find_list n self h)
      as [[[[lst|]|e] self1] h1] eqn:Efind; intros [= <- <- <-].
    + by destruct (Hnot n eq_refl).
    + by eapply keeps_find_list.
    + by eapply keeps_find_list.
  - revert Hrun. apply keeps_perform_item.
  - revert Hrun. apply keeps_fmap, keeps_format_list_summary.
Qed.

Lemma session_keeps_default calls self h outcomes self' h' :
  session calls self h = (outcomes, self', h') →
  never_set_default calls outcomes →
  BringIntegration._default_list_uuid self' =
  BringIntegration._default_list_uuid self.
Proof.
  revert self h outcomes self' h'.
  induction calls as [|c rest IH]; intros self h outcomes self' h'; simpl.
  - by intros [= _ <- _].
  - destruct (perform c self h) as [[r self1] h1] eqn:E1.
    destruct (session rest self1 h1) as [[rs self2] h2] eqn:E2.
    intros [= <- <- <-] Hnever.
    apply Forall2_cons_1 in Hnever as [Hc Hrest].
    rewrite (IH _ _ _ _ _ E2 Hrest).
    by eapply perform_keeps_default.
Qed.

(** C7.  A call of the public interface changes the stored default list
    only when it is [set_default_list] and returns [True]: every other call
    ([initialize], [cleanup], [get_lists], [find_list], the five item
    operations, [format_list_summary], and [set_default_list] when it
    returns [False] or raises)
    leaves [_default_list_uuid] as it was, whether the call returns or
    raises; and so does any sequence of such calls, for as long as the
    session object lives. *)
Theorem C7_default_persists :
  (∀ c self h r self' h',
      perform c self h = (r, self', h') →
      (∀ n, c = DoSetDefaultList n → r ≠ Ok (RBool true)) →
      BringIntegration._default_list_uuid self' =
      BringIntegration._default_list_uuid self) ∧
  (∀ calls self h outcomes self' h',
      session calls self h = (outcomes, self', h') →
      never_set_default calls outcomes →
      BringIntegration._default_list_uuid self' =
      BringIntegration._default_list_uuid self).
Proof.
  split; [apply perform_keeps_default|apply session_keeps_default].
Qed.
End Frame.

(** C7 on a failed [set_default_list]: the catalog has no list ["Groceries"],
    the call returns [False] and the default is still ["c3"]. *)
Lemma C7_witness :
  ∃ self' h',
    @perform one_list (DoSetDefaultList "Groceries") with_default []
    = (Ok (RBool false), self', h') ∧
    BringIntegration._default_list_uuid self' = Some "c3".
Proof.
  eexists _, _. split; [reflexivity|].
  eapply (proj1 (@C7_default_persists one_list)
            (DoSetDefaultList "Groceries") with_default []); [reflexivity|].
  intros n _. discriminate.
Defined.

(** ** The scenarios of the specification, run on the code *)

Example constructor_with_credentials :
  @BringIntegration.__init__ one_list (Some "me@example.org") (Some "secret")
  = Ok new_integration.
Proof. reflexivity. Qed.

Example constructor_without_credentials :
  @BringIntegration.__init__ one_list (Some "me@example.org") None
  = Raise CredentialsMissing.
Proof. reflexivity. Qed.

(** One list ["Weekly"]: [set_default_list("weekly")], then [get_items()],
    then [get_items("Groceries")]. *)
Example scenario_weekly :
  @session one_list
    [DoSetDefaultList "weekly"; DoItem DoGetItems None;
     DoItem DoGetItems (Some "Groceries")]
    new_integration []
  = ([Ok (RBool true); Ok (RContents ∅); Raise (ListNotFound "Groceries")],
     session_with [weekly] (Some "a1"),
     [SessionOpen 0; Login; LoadLists; GetList "a1"]).
Proof. reflexivity. Qed.

(** No list at all: [find_list("anything")], [set_default_list("anything")],
    then [get_items()]. *)
Example scenario_empty_catalog :
  @session (serving [])
    [DoFindList "anything"; DoSetDefaultList "anything"; DoItem DoGetItems None]
    new_integration []
  = ([Ok (RFound None); Ok (RBool false); Raise NoDefaultListConfigured],
     session_with [] None,
     [SessionOpen 0; Login; LoadLists]).
Proof. reflexivity. Qed.

Example format_list_summary_weekly :
  @BringIntegration.format_list_summary stocked (Some "weekly")
    (session_with [weekly] None) fetched_history
  = (Ok "ğŸ“‹ Weekly

ğŸ›’ To Buy:
  â˜ Milk (1 liter)
  â˜ Bread

âœ… Recently Purchased:
  âœ“ Eggs (6 pieces)",
     session_with [weekly] None, fetched_history ++ [GetList "a1"]).
Proof. by vm_compute. Qed.

(** ** Setting and resolving the default list *)

Section Resolution.
Context `{Env}.


Lemma _get_list_uuid_unset self h :
  truthy (BringIntegration._default_list_uuid self) = false →
  BringIntegration._get_list_uuid None self h
  = (Raise NoDefaultListConfigured, self, h).
Proof.
  intros Hd. unfold BringIntegration._get_list_uuid. unfold_M. simpl.
  by rewrite Hd.
Qed.

Lemma _get_list_uuid_set self h uuid :
  BringIntegration._default_list_uuid self = Some uuid → uuid ≠ "" →
  BringIntegration._get_list_uuid None self h = (Ok uuid, self, h).
Proof.
  intros Hd Hne. unfold BringIntegration._get_list_uuid. unfold_M. simpl.
  rewrite Hd. simpl. by destruct (String.eqb_spec uuid "").
Qed.
End Resolution.

Example find_list_weekly :
  @BringIntegration.find_list one_list "weekly" new_integration []
  = (Ok (Some weekly), session_with [weekly] None, fetched_history).
Proof. reflexivity. Qed.


Example set_default_list_weekly :
  @BringIntegration.set_default_list one_list "weekly" new_integration []
  = (Ok true, session_with [weekly] (Some "a1"), fetched_history).
Proof. reflexivity. Qed.

Example set_default_list_unknown :
  @BringIntegration.set_default_list one_list "Groceries"
    (session_with [weekly] (Some "a1")) fetched_history
  = (Ok false, session_with [weekly] (Some "a1"), fetched_history).
Proof. reflexivity. Qed.

Section DefaultList.
Context `{Env}.

(** C4, as the code has it.
    - In a session whose calls never set a default (the object starts with
      none, and no [set_default_list] has returned [True]),
      [_get_list_uuid()] raises the no-default error.
    - When [set_default_list n] returns [True], [find_list n] has found an
      entry, whose identifier is now the stored default; [_get_list_uuid()]
      then returns that identifier provided it is not the empty string. *)
Theorem C4_resolve_absent :
  (∀ calls self h outcomes self' h',
      BringIntegration._default_list_uuid self = None →
      session calls self h = (outcomes, self', h') →
      never_set_default calls outcomes →
      ∀ h2, BringIntegration._get_list_uuid None self' h2
            = (Raise NoDefaultListConfigured, self', h2)) ∧
  (∀ n self h self' h',
      BringIntegration.set_default_list n self h = (Ok true, self', h') →
      ∃ lst self1,
        BringIntegration.find_list n self h = (Ok (Some lst), self1, h') ∧
        BringIntegration._default_list_uuid self' = Some (listUuid lst) ∧
        (listUuid lst ≠ "" →
         ∀ h2, BringIntegration._get_list_uuid None self' h2
               = (Ok (listUuid lst), self', h2))).
Proof.
  split.
  - intros calls self h outcomes self' h' Hnone Hrun Hnever h2.
    apply _get_list_uuid_unset.
    by rewrite (session_keeps_default _ _ _ _ _ _ Hrun Hnever), Hnone.
  - intros n self h self' h'. rewrite set_default_list_unfold.
    destruct (BringIntegration.find_list n self h)
      as [[[[lst|]|e] self1] h1]; intros [= <- <-].
    exists lst, self1. split; [done|]. split; [done|].
    intros Hne h2. by apply _get_list_uuid_set.
Qed.
End DefaultList.

(** C4 on the scenario of the specification: before any call the resolution
    of an absent name fails; after [set_default_list("weekly")] it yields
    ["a1"]. *)
Lemma C4_witness :
  @BringIntegration._get_list_uuid None new_integration []
  = (Raise NoDefaultListConfigured, new_integration, []) ∧
  @BringIntegration._get_list_uuid None
    (session_with [weekly] (Some "a1")) fetched_history
  = (Ok "a1", session_with [weekly] (Some "a1"), fetched_history).
Proof.
  destruct (@C4_resolve_absent one_list) as [Hunset Hset]. split.
  - apply (Hunset [] new_integration [] [] new_integration []);
      [reflexivity|reflexivity|constructor].
  - destruct (Hset "weekly" new_integration []
                (session_with [weekly] (Some "a1")) fetched_history eq_refl)
      as (lst & self1 & Hfind & Hstored & Hresolve).
    injection Hfind as <- _. apply Hresolve. discriminate.
Defined.

(** C4 as stated fails: [set_default_list("X")] returns [True], and the
    resolution of an absent name right after it still raises the no-default
    error, because the stored identifier is tested for truth. *)
Lemma C4_counterexample :
  @BringIntegration.set_default_list one_anonymous "X" new_integration []
  = (Ok true, session_with [anonymous] (Some ""), fetched_history) ∧
  @BringIntegration._get_list_uuid None
    (session_with [anonymous] (Some "")) fetched_history
  = (Raise NoDefaultListConfigured,
     session_with [anonymous] (Some ""), fetched_history) ∧
  @BringIntegration._get_list_uuid None
    (session_with [anonymous] (Some "")) fetched_history
  ≠ (Ok (listUuid anonymous),
     session_with [anonymous] (Some ""), fetched_history).
Proof. split; [reflexivity|]. split; [reflexivity|]. discriminate. Qed.

(** ** Resolving a list name in the item operations *)

Section ItemOperations.
Context `{Env}.

Lemma truthy_nonempty n : n ≠ "" → truthy (Some n) = true.
Proof. intros Hne. simpl. by destruct (String.eqb_spec n ""). Qed.

Lemma integration_get_lists_unfold self h :
  BringIntegration.get_lists self h =
  match BringIntegration.initialize self h with
  | (Ok _, self0, h0) =>
      BringIntegration.on_client (BringClient.get_lists false) self0 h0
  | (Raise e, self0, h0) => (Raise e, self0, h0)
  end.
Proof.
  unfold BringIntegration.get_lists. unfold_M.
  by destruct (BringIntegration.initialize self h) as [[[[]|e] self0] h0].
Qed.

(** The catalog fetch sends no item request. *)
Lemma client_get_lists_events force c h :
  ∃ r c' evs,
    BringClient.get_lists force c h = (r, c', h ++ evs) ∧
    Forall (λ ev, is_item_request ev = false) evs.
Proof.
  rewrite get_lists_unfold.
  destruct (ensure_connected_spec c h)
    as (r1 & c1 & evs & -> & Hevs & _ & _).
  assert (Hevs' : Forall (λ ev, is_item_request ev = false) evs).
  { eapply Forall_impl; [exact Hevs|]. by intros ev [_ ?]. }
  assert (Hmore : Forall (λ ev, is_item_request ev = false)
                         (evs ++ [LoadLists])).
  { apply Forall_app. split; [done|by repeat constructor]. }
  destruct r1 as [[]|e]; [|by eexists _, _, _].
  destruct (BringClient._lists_cache c1), force, (BringClient.bring c1);
    try destruct (load_lists_reply _);
    rewrite <- ?(app_assoc h); by eexists _, _, _.
Qed.

Lemma integration_get_lists_events self h :
  ∃ r self' evs,
    BringIntegration.get_lists self h = (r, self', h ++ evs) ∧
    Forall (λ ev, is_item_request ev = false) evs.
Proof.
  rewrite integration_get_lists_unfold.
  destruct (initialize_spec self h)
    as (r0 & self0 & evs0 & -> & [c Hc] & _ & Hevs0 & _).
  assert (Hevs0' : Forall (λ ev, is_item_request ev = false) evs0).
  { eapply Forall_impl; [exact Hevs0|]. by intros ev [_ ?]. }
  destruct r0 as [[]|e]; [|by eexists _, _, _].
  unfold BringIntegration.on_client. rewrite Hc.
  destruct (client_get_lists_events false c (h ++ evs0))
    as (r & c' & evs & -> & Hevs).
  rewrite <- app_assoc. eexists _, _, _. split; [done|].
  apply Forall_app. by split.
Qed.

(** Resolving a non-empty name is the lookup in the catalog. *)
Lemma resolve_named n self h :
  n ≠ "" →
  BringIntegration.resolve (Some n) self h =
  match BringIntegration.get_lists self h with
  | (Ok catalog, self', h') =>
      match BringClient.first_by_name n catalog with
      | Some lst => (Ok (listUuid lst), self', h')
      | None => (Raise (ListNotFound n), self', h')
      end
  | (Raise e, self', h') => (Raise e, self', h')
  end.
Proof.
  intros Hne. unfold BringIntegration.resolve.
  rewrite (truthy_nonempty n Hne). unfold_M. simpl.
  rewrite find_list_unfold.
  destruct (BringIntegration.get_lists self h) as [[[catalog|e] self'] h'];
    [|done].
  by destruct (BringClient.first_by_name n catalog).
Qed.

(** The catalog fetch of an item operation is the one [get_lists] makes:
    the second [initialize] finds the client in place. *)
Lemma get_lists_after_initialize self h self0 h0 :
  BringIntegration.initialize self h = (Ok tt, self0, h0) →
  BringIntegration.get_lists self0 h0 = BringIntegration.get_lists self h.
Proof.
  intros Hinit. rewrite !integration_get_lists_unfold, Hinit.
  destruct (initialize_spec self h)
    as (r & self0' & evs & Hrun & Hclient & _).
  rewrite Hinit in Hrun. injection Hrun as <- <- _.
  by rewrite initialize_again.
Qed.

(** C5, as the code has it.  Let [n] be a non-empty name, and let the
    catalog that [get_lists] yields in the current state have no entry named
    [n] up to case.  Then resolving [n], and each of the five item
    operations called with [list_name = n], raises [ListNotFound n],
    whatever default is stored; the object and the history are as the
    catalog fetch left them, so no item request has been sent. *)
Theorem C5_unknown_list_not_found op n self h catalog self1 h1 :
  n ≠ "" →
  BringIntegration.get_lists self h = (Ok catalog, self1, h1) →
  (∀ lst, lst ∈ catalog → ¬ same_name (get_name lst) n) →
  BringIntegration.resolve (Some n) self h
    = (Raise (ListNotFound n), self1, h1) ∧
  perform_item op (Some n) self h = (Raise (ListNotFound n), self1, h1) ∧
  ∃ evs, h1 = h ++ evs ∧ Forall (λ ev, is_item_request ev = false) evs.
Proof.
  intros Hne Hfetch Hnone.
  apply first_by_name_None in Hnone.
  split; [|split].
  - by rewrite resolve_named, Hfetch, Hnone.
  - rewrite perform_item_unfold.
    pose proof Hfetch as Hfetch'.
    rewrite integration_get_lists_unfold in Hfetch'.
    destruct (BringIntegration.initialize self h)
      as [[[[]|e] self0] h0] eqn:Hinit; [|done].
    rewrite resolve_named by done.
    rewrite (get_lists_after_initialize _ _ _ _ Hinit), Hfetch.
    by rewrite Hnone.
  - destruct (integration_get_lists_events self h)
      as (r & self' & evs & Hrun & Hevs).
    rewrite Hfetch in Hrun. injection Hrun as _ _ ->. by exists evs.
Qed.
End ItemOperations.

(** C5 on the scenario of the specification: with the catalog of the one
    list ["Weekly"] and ["a1"] as the default, adding to ["Groceries"] raises
    [ListNotFound "Groceries"] and sends nothing. *)
Lemma C5_witness :
  @perform_item one_list (DoAddItem "Milk" "1 liter") (Some "Groceries")
    (session_with [weekly] (Some "a1")) fetched_history
  = (Raise (ListNotFound "Groceries"),
     session_with [weekly] (Some "a1"), fetched_history).
Proof.
  apply (@C5_unknown_list_not_found one_list (DoAddItem "Milk" "1 liter")
           "Groceries" (session_with [weekly] (Some "a1")) fetched_history
           [weekly]).
  - discriminate.
  - reflexivity.
  - intros lst ->%list_elem_of_singleton. unfold same_name. simpl.
    discriminate.
Defined.

(** C5 as stated fails at the empty name: no entry of the catalog is named
    [""], and yet [get_items("")] raises no [ListNotFound]: it reads the
    default list. *)
Lemma C5_counterexample :
  (∀ lst, lst ∈ [weekly] → ¬ @same_name one_list (get_name lst) "") ∧
  @perform_item one_list DoGetItems (Some "")
    (session_with [weekly] (Some "a1")) fetched_history
  = (Ok (RContents ∅), session_with [weekly] (Some "a1"),
     fetched_history ++ [GetList "a1"]) ∧
  @perform_item one_list DoGetItems (Some "")
    (session_with [weekly] (Some "a1")) fetched_history
  ≠ (Raise (ListNotFound ""), session_with [weekly] (Some "a1"),
     fetched_history).
Proof.
  split; [|split].
  - intros lst ->%list_elem_of_singleton. unfold same_name. simpl.
    discriminate.
  - reflexivity.
  - discriminate.
Qed.

(** ** The empty list name *)

Section EmptyName.
Context `{Env}.

Lemma connect_raises c h e c' h' :
  BringClient.connect c h = (Raise e, c', h') → ∃ msg, e = TransportError msg.
Proof.
  rewrite connect_unfold. destruct (BringClient.session c); [done|].
  simpl. destruct (command_reply _ _); [|done]. intros [= <- _ _]. by eexists.
Qed.

(** The requests of the client raise what the transport raises, never a
    [ValueError]. *)
Lemma on_list_no_value_error op list_uuid c h r c' h' :
  on_list op list_uuid c h = (r, c', h') → ¬ is_value_error r.
Proof.
  destruct op; simpl;
    unfold BringClient.get_items, BringClient.add_item,
      BringClient.batch_add_items, BringClient.complete_item,
      BringClient.remove_item, BringClient.ensure_connected,
      BringClient.the_bring, get_list, command;
    unfold_M; intros Hrun; repeat case_match; simplify_eq/=; try tauto;
    match goal with
    | Hc : BringClient.connect _ _ = _ |- _ =>
        apply connect_raises in Hc as [? ->]; simpl; tauto
    end.
Qed.

Lemma initialize_no_value_error self h e self' h' :
  BringIntegration.initialize self h = (Raise e, self', h') →
  ∃ msg, e = TransportError msg.
Proof.
  rewrite initialize_unfold.
  destruct (BringIntegration.client self); [done|].
  destruct (BringClient.connect _ h) as [[r c] h1] eqn:Hc.
  intros [= -> _ _]. by eapply connect_raises.
Qed.

(** C9.  For each of the five item operations, [list_name = ""] is
    [list_name = None]: the same outcome, the same object, the same
    requests.  Once [initialize] has succeeded, the operation is the
    request for the stored default list when one is stored (and not the
    empty string), and raises the no-default error when none is stored (the
    stored default is falsy); in no case does it raise [ListNotFound ""]. *)
Theorem C9_empty_name_is_absent op self h :
  perform_item op (Some "") self h = perform_item op None self h ∧
  (∀ self0 h0,
      BringIntegration.initialize self h = (Ok tt, self0, h0) →
      (∀ list_uuid,
          BringIntegration._default_list_uuid self = Some list_uuid →
          list_uuid ≠ "" →
          perform_item op (Some "") self h
          = BringIntegration.on_client (on_list op list_uuid) self0 h0) ∧
      (truthy (BringIntegration._default_list_uuid self) = false →
       perform_item op (Some "") self h
       = (Raise NoDefaultListConfigured, self0, h0))) ∧
  (∀ r self' h',
      perform_item op (Some "") self h = (r, self', h') →
      r ≠ Raise (ListNotFound "")).
Proof.
  split; [by rewrite !perform_item_unfold|]. split.
  - intros self0 h0 Hinit. rewrite perform_item_unfold, Hinit.
    assert (Hdef : BringIntegration._default_list_uuid self0 =
                   BringIntegration._default_list_uuid self)
      by (by eapply keeps_initialize).
    change (BringIntegration.resolve (Some "") self0 h0)
      with (BringIntegration._get_list_uuid None self0 h0).
    split.
    + intros list_uuid Hd Hne.
      rewrite (_get_list_uuid_set self0 h0 list_uuid); [done| |done].
      by rewrite Hdef.
    + intros Hd. rewrite _get_list_uuid_unset; [done|]. by rewrite Hdef.
  - intros r self' h'. rewrite perform_item_unfold.
    destruct (BringIntegration.initialize self h)
      as [[[[]|e] self0] h0] eqn:Hinit.
    + change (BringIntegration.resolve (Some "") self0 h0)
        with (BringIntegration._get_list_uuid None self0 h0).
      unfold BringIntegration._get_list_uuid. unfold_M. simpl.
      destruct (truthy (BringIntegration._default_list_uuid self0)).
      * unfold BringIntegration.on_client.
        destruct (BringIntegration.client self0) as [c|]; [|by intros [= <-]].
        destruct (on_list op _ c h0) as [[r1 c1] h1] eqn:Hreq.
        intros [= <- _ _] ->.
        by apply on_list_no_value_error in Hreq.
      * by intros [= <- _ _].
    + apply initialize_no_value_error in Hinit as [msg ->].
      by intros [= <- _ _].
Qed.
End EmptyName.

(** C9 on [add_item]: with ["a1"] as the default, [list_name=""] adds to
    ["a1"]; without a default it raises the no-default error. *)
Lemma C9_witness :
  @perform_item one_list (DoAddItem "Milk" "") (Some "")
    (session_with [weekly] (Some "a1")) fetched_history
  = (Ok (RBool true), session_with [weekly] (Some "a1"),
     fetched_history ++ [SaveItem "a1" "Milk" ""]) ∧
  @perform_item one_list (DoAddItem "Milk" "") (Some "")
    (session_with [weekly] None) fetched_history
  = (Raise NoDefaultListConfigured, session_with [weekly] None,
     fetched_history).
Proof.
  destruct (@C9_empty_name_is_absent one_list (DoAddItem "Milk" "")
              (session_with [weekly] (Some "a1")) fetched_history)
    as (_ & Hdefault & _).
  destruct (@C9_empty_name_is_absent one_list (DoAddItem "Milk" "")
              (session_with [weekly] None) fetched_history)
    as (_ & Hnone & _).
  split.
  - rewrite (proj1 (Hdefault _ _ eq_refl) "a1" eq_refl); [reflexivity|].
    discriminate.
  - exact (proj2 (Hnone _ _ eq_refl) eq_refl).
Defined.

(** ** The empty catalog *)

Section EmptyCatalog.
Context `{Env}.

(** C6.  Let the connection step of [get_lists] succeed.  When the catalog
    is fetched (nothing cached, or a forced refresh) and the service answers
    with no lists, be it an empty list or a response without the field,
    [get_lists] returns the empty list; it does not raise.  The same holds
    when the empty catalog comes from the cache. *)
Theorem C6_empty_catalog force c h c1 h1 :
  BringClient.ensure_connected c h = (Ok tt, c1, h1) →
  connected c1 →
  (∀ response,
      BringClient._lists_cache c = None ∨ force = true →
      load_lists_reply h1 = inr response →
      no_lists response →
      BringClient.get_lists force c h
      = (Ok [], BringClient.set_lists_cache (Some []) c1, h1 ++ [LoadLists])) ∧
  (BringClient._lists_cache c = Some [] → force = false →
   BringClient.get_lists force c h = (Ok [], c1, h1)).
Proof.
  intros Hconn [b Hb].
  destruct (ensure_connected_spec c h) as (r & c1' & evs & Hrun & _ & Hc & _).
  rewrite Hconn in Hrun. injection Hrun as <- <- ->.
  rewrite get_lists_unfold, Hconn, Hc, Hb. split.
  - intros response Hmiss -> Hempty.
    assert (Hfetched : default [] (lists response) = [])
      by (by destruct Hempty as [-> | ->]).
    simpl. rewrite Hfetched.
    by destruct (BringClient._lists_cache c), force, Hmiss.
  - by intros -> ->.
Qed.
End EmptyCatalog.

(** C6 on a client that has not connected yet and a service whose response
    has no ['lists'] field. *)
Lemma C6_witness :
  @BringClient.get_lists no_field false unconnected_client []
  = (Ok [], BringClient.set_lists_cache (Some []) fresh_client,
     fresh_history ++ [LoadLists]).
Proof.
  assert (Hconn : connected fresh_client) by (by eexists).
  destruct (@C6_empty_catalog no_field false unconnected_client []
              fresh_client fresh_history eq_refl Hconn) as [Hfetch _].
  apply (Hfetch (mkResponse None)); [by left|reflexivity|by left].
Defined.

Example get_lists_empty_list :
  @BringClient.get_lists (serving []) true fresh_client fresh_history
  = (Ok [], BringClient.set_lists_cache (Some []) fresh_client,
     fresh_history ++ [LoadLists]).
Proof. reflexivity. Qed.

(** ** The batch of [add_items] *)

Section Batch.
Context `{Env}.

Lemma format_items_flat items :
  BringIntegration.format_items items
  = concat (BringIntegration.format_item <$> items).
Proof.
  unfold BringIntegration.format_items.
  assert (Hgen : ∀ acc,
    foldl (λ formatted_items item,
             formatted_items ++ BringIntegration.format_item item) acc items
    = acc ++ concat (BringIntegration.format_item <$> items)).
  { induction items as [|item items IH]; intros acc; simpl.
    - by rewrite app_nil_r.
    - by rewrite IH, app_assoc. }
  apply (Hgen []).
Qed.

Lemma format_items_length items :
  length (BringIntegration.format_items items)
  = length (filter (λ item, is_str_or_dict item = true) items).
Proof.
  rewrite format_items_flat.
  induction items as [|item items IH]; [done|].
  rewrite fmap_cons, concat_cons, length_app, IH.
  destruct item as [[]|]; by simpl.
Qed.
Lemma set_client_same self c :
  BringIntegration.client self = Some c →
  BringIntegration.set_client (Some c) self = self.
Proof. destruct self; simpl. by intros ->. Qed.

Lemma two_keys_lookup (x y : pyval) key :
  ({[ "itemId" := x; "spec" := y ]} : pydict) !! key =
  if decide (key = "itemId") then Some x
  else if decide (key = "spec") then Some y
  else None.
Proof.
  case_decide as Hk; [subst; apply lookup_insert_eq|].
  rewrite lookup_insert_ne by done.
  case_decide as Hk'; [subst; apply lookup_singleton_eq|].
  by apply lookup_singleton_ne.
Qed.

(** The batch request on a connected client. *)
Lemma batch_add_items_connected list_uuid batch c h :
  connected c →
  BringClient.batch_add_items list_uuid batch c h =
  match command_reply h (BatchUpdateList list_uuid batch ADD) with
  | None => (Ok true, c, h ++ [BatchUpdateList list_uuid batch ADD])
  | Some msg =>
      (Raise (TransportError msg), c,
       h ++ [BatchUpdateList list_uuid batch ADD])
  end.
Proof.
  intros [b Hb].
  unfold BringClient.batch_add_items, BringClient.ensure_connected,
    BringClient.the_bring, command.
  unfold_M. rewrite Hb. simpl. rewrite Hb.
  by destruct (command_reply _ _).
Qed.

(** C10.  [add_items] turns its argument into the batch it sends:
    - a string [s] becomes the dict with the one key ['itemId'], bound to
      [s];
    - a dict [d] becomes the dict with the two keys ['itemId'] and
      ['spec']: ['itemId'] is [d['name']] when [d] has that key and else
      [d['itemId']] ([None] when [d] has neither), ['spec'] is [d['spec']]
      when [d] has that key, else [d['specification']] when [d] has that
      one, else [""];
    - everything else is dropped;
    - the batch keeps the order of the input and has as many elements as
      the input has strings and dicts, so it may be shorter than the input;
    - when the list resolves and the service accepts the batch, the request
      carries exactly this batch and the call returns [True]. *)
Theorem C10_add_items_normalization :
  (∀ s, ∃ formatted : pydict,
      BringIntegration.format_item (Scalar (VStr s)) = [formatted] ∧
      ∀ key, formatted !! key =
             if decide (key = "itemId") then Some (VStr s) else None) ∧
  (∀ d, ∃ formatted : pydict,
      BringIntegration.format_item (Dict d) = [formatted] ∧
      ∀ key, formatted !! key =
             if decide (key = "itemId") then Some (item_id_of d)
             else if decide (key = "spec") then Some (spec_of d)
             else None) ∧
  (∀ v, (∀ s, v ≠ VStr s) →
        BringIntegration.format_item (Scalar v) = []) ∧
  (∀ items,
      BringIntegration.format_items items
      = concat (BringIntegration.format_item <$> items) ∧
      length (BringIntegration.format_items items)
      = length (filter (λ item, is_str_or_dict item = true) items) ∧
      (length (BringIntegration.format_items items) ≤ length items)%nat) ∧
  (∀ items list_name self h self0 h0 list_uuid self1 h1 c,
      BringIntegration.initialize self h = (Ok tt, self0, h0) →
      BringIntegration.resolve list_name self0 h0 = (Ok list_uuid, self1, h1) →
      BringIntegration.client self1 = Some c →
      connected c →
      command_reply h1 (BatchUpdateList
                          list_uuid (BringIntegration.format_items items) ADD)
      = None →
      BringIntegration.add_items items list_name self h
      = (Ok true, self1,
         h1 ++ [BatchUpdateList
                  list_uuid (BringIntegration.format_items items) ADD])).
Proof.
  split; [|split; [|split; [|split]]].
  - intros s. eexists. split; [reflexivity|]. intros key.
    case_decide as Hk; [subst; apply lookup_singleton_eq|].
    by apply lookup_singleton_ne.
  - intros d. eexists. split; [reflexivity|]. intros key.
    etrans; [apply two_keys_lookup|].
    unfold item_id_of, spec_of.
    by destruct (d !! "name"), (d !! "itemId"), (d !! "spec"),
      (d !! "specification").
  - intros [] Hv; try done. by destruct (Hv s).
  - intros items. split; [apply format_items_flat|].
    split; [apply format_items_length|].
    rewrite format_items_length. apply length_filter.
  - intros items list_name self h self0 h0 list_uuid self1 h1 c
      Hinit Hres Hc Hconn Hreply.
    unfold BringIntegration.add_items, BringIntegration.on_client.
    unfold_M. rewrite Hinit, Hres, Hc.
    rewrite batch_add_items_connected by done.
    rewrite Hreply. by rewrite set_client_same.
Qed.
End Batch.

Example format_items_eggs_42_milk :
  BringIntegration.format_items eggs_42_milk = eggs_milk_batch.
Proof. by vm_compute. Qed.

(** C10 on three elements, the second of which is a number: the call returns
    [True] and the batch it has sent has two elements. *)
Lemma C10_witness :
  @BringIntegration.add_items one_list eggs_42_milk (Some "weekly")
    (session_with [weekly] None) fetched_history
  = (Ok true, session_with [weekly] None,
     fetched_history ++
       [BatchUpdateList "a1" (BringIntegration.format_items eggs_42_milk) ADD]) ∧
  (length (BringIntegration.format_items eggs_42_milk) < length eggs_42_milk)%nat.
Proof.
  destruct (@C10_add_items_normalization one_list)
    as (_ & _ & _ & Hbatch & Hcall).
  split.
  - eapply (Hcall eggs_42_milk (Some "weekly") (session_with [weekly] None)
              fetched_history);
      [reflexivity|reflexivity|reflexivity|by eexists|reflexivity].
  - destruct (Hbatch eggs_42_milk) as (_ & -> & _). simpl. lia.
Defined.

(** ** The HTTP session and the scope of [async with] *)

Section Scope.
Context `{Env}.

Lemma open_sessions_snoc h ev :
  open_sessions (h ++ [ev]) = track_session (open_sessions h) ev.
Proof. unfold open_sessions. by rewrite foldl_snoc. Qed.

Lemma open_sessions_request h ev :
  is_request ev = true → open_sessions (h ++ [ev]) = open_sessions h.
Proof. intros Hev. rewrite open_sessions_snoc. by destruct ev. Qed.

Lemma tidy_ret {A} (a : A) : tidy (mret a).
Proof. by intros c h r c' h' [= _ <- <-]. Qed.

Lemma tidy_raise {A} e : tidy (raise (A := A) e).
Proof. by intros c h r c' h' [= _ <- <-]. Qed.

Lemma tidy_this : tidy this.
Proof. by intros c h r c' h' [= _ <- <-]. Qed.

Lemma tidy_bind {A B} (m : M BringClient.t A) (k : A → M BringClient.t B) :
  tidy m → (∀ a, tidy (k a)) → tidy (m ≫= k).
Proof.
  intros Hm Hk c h r c' h'. unfold_M.
  destruct (m c h) as [[[a|e] c1] h1] eqn:E1.
  - intros E2 Hown. eapply Hk; [done|]. by eapply Hm.
  - intros [= _ <- <-] Hown. by eapply Hm.
Qed.

Lemma tidy_fmap {A B} (f : A → B) (m : M BringClient.t A) :
  tidy m → tidy (f <$> m).
Proof. intros Hm. apply (tidy_bind m); [done|]. intros a. apply tidy_ret. Qed.

Lemma tidy_command ev : is_request ev = true → tidy (command ev).
Proof.
  intros Hev c h r c' h'. unfold command, client_owns.
  destruct (command_reply h ev); intros [= _ <- <-];
    by rewrite open_sessions_request.
Qed.

Lemma tidy_load_lists : tidy load_lists.
Proof.
  intros c h r c' h'. unfold load_lists, client_owns.
  destruct (load_lists_reply h); intros [= _ <- <-];
    by rewrite open_sessions_request.
Qed.

Lemma tidy_get_list list_uuid : tidy (get_list list_uuid).
Proof.
  intros c h r c' h'. unfold get_list, client_owns.
  destruct (get_list_reply h list_uuid); intros [= _ <- <-];
    by rewrite open_sessions_request.
Qed.

Lemma tidy_set_lists_cache v : tidy (assign (BringClient.set_lists_cache v)).
Proof. by intros c h r c' h' [= _ <- <-]. Qed.

Lemma tidy_connect : tidy BringClient.connect.
Proof.
  intros c h r c' h'. rewrite connect_unfold. unfold client_owns.
  destruct (BringClient.session c) as [sid|] eqn:Hs.
  - intros [= _ <- <-]. by rewrite Hs.
  - simpl. intros Hrun Hown.
    assert (Hh' : h' = (h ++ [SessionOpen (length h)]) ++ [Login])
      by (rewrite <- app_assoc; by destruct (command_reply _ _);
          injection Hrun as _ _ <-).
    assert (Hc' : BringClient.session c' = Some (length h))
      by (by destruct (command_reply _ _); injection Hrun as _ <- _).
    rewrite Hh', Hc', open_sessions_request, open_sessions_snoc, Hown by done.
    done.
Qed.

Lemma disconnect_unfold c h :
  BringClient.disconnect c h =
  match BringClient.session c with
  | Some sid =>
      (Ok tt,
       BringClient.set_bring None (BringClient.set_session None c),
       h ++ [SessionClose sid])
  | None => (Ok tt, c, h)
  end.
Proof.
  unfold BringClient.disconnect. unfold_M.
  by destruct (BringClient.session c).
Qed.

(** After [disconnect] the client holds no session, and does not raise. *)
Lemma disconnect_closes c h :
  ∃ c' h',
    BringClient.disconnect c h = (Ok tt, c', h') ∧
    BringClient.session c' = None ∧
    (client_owns c h → open_sessions h' = []).
Proof.
  rewrite disconnect_unfold. unfold client_owns.
  destruct (BringClient.session c) as [sid|] eqn:Hs; eexists _, _;
    (split; [reflexivity|]); (split; [done|]); simpl; [|done].
  intros Hown. rewrite open_sessions_snoc, Hown. simpl.
  rewrite filter_cons_False; [done|]. by intros ?.
Qed.

Lemma tidy_disconnect : tidy BringClient.disconnect.
Proof.
  intros c h r c' h' Hrun Hown. unfold client_owns.
  destruct (disconnect_closes c h) as (c1 & h1 & Hrun1 & Hs & Hclosed).
  rewrite Hrun in Hrun1. injection Hrun1 as -> -> ->.
  by rewrite Hs, Hclosed.
Qed.

Create HintDb scope discriminated.
Hint Resolve tidy_ret tidy_raise tidy_this tidy_fmap tidy_load_lists
  tidy_get_list tidy_set_lists_cache tidy_connect tidy_disconnect : scope.
Hint Extern 1 (tidy (command _)) => apply tidy_command; reflexivity : scope.
Hint Extern 2 (tidy (_ ≫= _)) => apply tidy_bind; [|intros ?] : scope.
Hint Extern 3 (tidy (match ?x with _ => _ end)) => destruct x : scope.

Lemma tidy_ensure_connected : tidy BringClient.ensure_connected.
Proof. unfold BringClient.ensure_connected. auto 10 with scope. Qed.

Lemma tidy_the_bring : tidy BringClient.the_bring.
Proof. unfold BringClient.the_bring. auto 10 with scope. Qed.

Hint Resolve tidy_ensure_connected tidy_the_bring : scope.

Lemma tidy_get_lists force : tidy (BringClient.get_lists force).
Proof. unfold BringClient.get_lists. auto 12 with scope. Qed.

Hint Resolve tidy_get_lists : scope.

Lemma tidy_get_list_by_name n : tidy (BringClient.get_list_by_name n).
Proof. unfold BringClient.get_list_by_name. auto 10 with scope. Qed.

Lemma tidy_on_list op list_uuid : tidy (on_list op list_uuid).
Proof.
  destruct op; simpl;
    unfold BringClient.get_items, BringClient.add_item,
      BringClient.batch_add_items, BringClient.complete_item,
      BringClient.remove_item;
    auto 12 with scope.
Qed.

Lemma scoped_ret {A} (a : A) : scoped (mret a).
Proof. by intros self h r self' h' [= _ <- <-]. Qed.

Lemma scoped_raise {A} e : scoped (raise (A := A) e).
Proof. by intros self h r self' h' [= _ <- <-]. Qed.

Lemma scoped_this : scoped this.
Proof. by intros self h r self' h' [= _ <- <-]. Qed.

Lemma scoped_pure {A} (r : result A) : scoped (pure r).
Proof. by intros self h r' self' h' [= _ <- <-]. Qed.

Lemma scoped_bind {A B} (m : M BringIntegration.t A)
      (k : A → M BringIntegration.t B) :
  scoped m → (∀ a, scoped (k a)) → scoped (m ≫= k).
Proof.
  intros Hm Hk self h r self' h'. unfold_M.
  destruct (m self h) as [[[a|e] self1] h1] eqn:E1.
  - intros E2 Hown. eapply Hk; [done|]. by eapply Hm.
  - intros [= _ <- <-] Hown. by eapply Hm.
Qed.

Lemma scoped_fmap {A B} (f : A → B) (m : M BringIntegration.t A) :
  scoped m → scoped (f <$> m).
Proof.
  intros Hm. apply (scoped_bind m); [done|]. intros a. apply scoped_ret.
Qed.

Lemma scoped_set_default v :
  scoped (assign (BringIntegration.set_default_list_uuid v)).
Proof. by intros self h r self' h' [= _ <- <-]. Qed.

Lemma scoped_on_client {A} (m : M BringClient.t A) :
  tidy m → scoped (BringIntegration.on_client m).
Proof.
  intros Hm self h r self' h'. unfold BringIntegration.on_client, owns.
  destruct (BringIntegration.client self) as [c|] eqn:Hc.
  - destruct (m c h) as [[r1 c1] h1] eqn:E. intros [= _ <- <-]. simpl.
    by eapply Hm.
  - intros [= _ <- <-]. by rewrite Hc.
Qed.

Lemma scoped_initialize : scoped BringIntegration.initialize.
Proof.
  intros self h r self' h'. rewrite initialize_unfold. unfold owns.
  destruct (BringIntegration.client self) as [c|] eqn:Hc.
  - intros [= _ <- <-]. by rewrite Hc.
  - destruct (BringClient.connect _ h) as [[r1 c1] h1] eqn:E.
    intros [= _ <- <-] Hown. simpl. by eapply tidy_connect.
Qed.

(** [cleanup] does not raise, drops the client, and leaves no session
    open. *)
Lemma cleanup_releases self h :
  ∃ self' h',
    BringIntegration.cleanup self h = (Ok tt, self', h') ∧
    BringIntegration.client self' = None ∧
    (owns self h → open_sessions h' = []).
Proof.
  unfold BringIntegration.cleanup, BringIntegration.on_client, owns.
  unfold_M.
  destruct (BringIntegration.client self) as [c|] eqn:Hc.
  - rewrite Hc.
    destruct (disconnect_closes c h) as (c' & h' & -> & _ & Hclosed).
    by eexists _, _.
  - by eexists _, _.
Qed.

Lemma scoped_cleanup : scoped BringIntegration.cleanup.
Proof.
  intros self h r self' h' Hrun Hown. unfold owns.
  destruct (cleanup_releases self h) as (self1 & h1 & Hrun1 & Hc & Hclosed).
  rewrite Hrun in Hrun1. injection Hrun1 as -> -> ->.
  by rewrite Hc, Hclosed.
Qed.

Hint Resolve scoped_ret scoped_raise scoped_this scoped_pure scoped_fmap
  scoped_set_default scoped_initialize scoped_cleanup tidy_get_list_by_name
  tidy_on_list : scope.
Hint Extern 1 (scoped (BringIntegration.on_client _)) =>
  apply scoped_on_client : scope.
Hint Extern 2 (scoped (_ ≫= _)) => apply scoped_bind; [|intros ?] : scope.
Hint Extern 3 (scoped (match ?x with _ => _ end)) => destruct x : scope.
Hint Extern 3 (scoped (if ?x then _ else _)) => destruct x : scope.

Lemma scoped_find_list n : scoped (BringIntegration.find_list n).
Proof. unfold BringIntegration.find_list. auto 10 with scope. Qed.

Hint Resolve scoped_find_list : scope.

Lemma scoped_resolve list_name : scoped (BringIntegration.resolve list_name).
Proof.
  unfold BringIntegration.resolve, BringIntegration._get_list_uuid.
  auto 12 with scope.
Qed.

Hint Resolve scoped_resolve : scope.

Lemma scoped_perform_item op list_name : scoped (perform_item op list_name).
Proof.
  intros self h r self' h'. rewrite perform_item_unfold.
  destruct (BringIntegration.initialize self h) as [[[[]|e] self0] h0] eqn:E0.
  - destruct (BringIntegration.resolve list_name self0 h0)
      as [[[list_uuid|e] self1] h1] eqn:E1.
    + intros E2 Hown.
      eapply (scoped_on_client (on_list op list_uuid)); eauto with scope.
      eapply scoped_resolve; [done|]. by eapply scoped_initialize.
    + intros [= _ <- <-] Hown.
      eapply scoped_resolve; [done|]. by eapply scoped_initialize.
  - intros [= _ <- <-] Hown. by eapply scoped_initialize.
Qed.

Lemma tidy_get_items list_uuid : tidy (BringClient.get_items list_uuid).
Proof. unfold BringClient.get_items. auto 10 with scope. Qed.

Lemma scoped_get_lists : scoped BringIntegration.get_lists.
Proof. unfold BringIntegration.get_lists. auto 10 with scope. Qed.

Hint Resolve tidy_get_items scoped_get_lists : scope.

Lemma scoped_format_list_summary list_name :
  scoped (BringIntegration.format_list_summary list_name).
Proof.
  unfold BringIntegration.format_list_summary, BringIntegration.get_items.
  auto 14 with scope.
Qed.

(** Every call of the public interface keeps the session accounted for. *)
Lemma scoped_perform c : scoped (perform c).
Proof.
  destruct c; simpl;
    unfold BringIntegration.set_default_list;
    auto 10 using scoped_perform_item, scoped_format_list_summary with scope.
Qed.

(** [async with] around [body], on an object that holds no stray session:
    once [__aenter__] has returned, no session is open when the scope is
    left, whether [body] returns or raises. *)
Lemma async_with_releases {A} (body : M BringIntegration.t A)
      self h self0 h0 :
  scoped body →
  owns self h →
  BringIntegration.__aenter__ self h = (Ok tt, self0, h0) →
  ∃ r self' h',
    BringIntegration.async_with body self h = (r, self', h') ∧
    r = (body self0 h0).1.1 ∧
    BringIntegration.client self' = None ∧
    open_sessions h' = [].
Proof.
  intros Hbody Hown Henter.
  unfold BringIntegration.async_with. unfold_M. rewrite Henter.
  destruct (body self0 h0) as [[r self1] h1] eqn:Ebody.
  assert (Hown1 : owns self1 h1).
  { eapply Hbody; [done|]. by eapply scoped_initialize. }
  unfold BringIntegration.__aexit__.
  destruct (cleanup_releases self1 h1) as (self2 & h2 & -> & Hc & Hclosed).
  eexists _, _, _. split; [reflexivity|]. repeat split; [done|by apply Hclosed].
Qed.

(** When the login of [__aenter__] fails on a fresh object, the scope is
    left with the exception of the login, the body and [__aexit__] are not
    run, and the session that [connect] opened stays open. *)
Lemma async_with_login_failure {A} (body : M BringIntegration.t A)
      self h msg :
  BringIntegration.client self = None →
  command_reply (h ++ [SessionOpen (length h)]) Login = Some msg →
  ∃ self',
    BringIntegration.async_with body self h
    = (Raise (TransportError msg), self', h ++ [SessionOpen (length h); Login]) ∧
    (owns self h →
     open_sessions (h ++ [SessionOpen (length h); Login]) = [length h]).
Proof.
  intros Hc Hlogin.
  unfold BringIntegration.async_with, BringIntegration.__aenter__. unfold_M.
  rewrite initialize_unfold, Hc, connect_unfold. simpl. rewrite Hlogin.
  eexists. split; [reflexivity|].
  unfold owns. rewrite Hc. intros Hown.
  change (h ++ [SessionOpen (length h); Login])
    with (h ++ [SessionOpen (length h)] ++ [Login]).
  rewrite app_assoc, open_sessions_request, open_sessions_snoc, Hown by done.
  done.
Qed.
End Scope.

(** C8 fails on the code when the login raises: [__aenter__] has opened the
    HTTP session before it logs in, the exception of the login leaves the
    [async with] statement without [__aexit__] being run, and the session
    [0] is still open when the scope has been left.  This holds for every
    body, which is not run, and for the client used on its own as for the
    integration. *)
Theorem C8_login_failure_leaks_session {A B}
        (body : M BringIntegration.t A) (client_body : M BringClient.t B) :
  (∃ self',
      @BringIntegration.async_with rejecting A body new_integration []
      = (Raise (TransportError "401 Unauthorized"), self',
         [SessionOpen 0; Login]) ∧
      BringIntegration.client self' = Some fresh_client) ∧
  @BringClient.async_with rejecting B client_body unconnected_client []
  = (Raise (TransportError "401 Unauthorized"), fresh_client,
     [SessionOpen 0; Login]) ∧
  open_sessions [SessionOpen 0; Login] = [0%nat].
Proof.
  split; [eexists; split; reflexivity|]. split; reflexivity.
Qed.

(** With a service that accepts the login, the same scope releases the
    session, also when the body raises. *)
Example async_with_body_raises :
  @BringIntegration.async_with one_list _
    (@BringIntegration.add_item one_list "Milk" "" (Some "Groceries"))
    new_integration []
  = (Raise (ListNotFound "Groceries"), new_integration,
     [SessionOpen 0; Login; LoadLists; SessionClose 0]) ∧
  open_sessions [SessionOpen 0; Login; LoadLists; SessionClose 0] = [].
Proof. split; reflexivity. Qed.

(** * Further properties of the code *)

(** ** Connecting and disconnecting the client *)

Section Connection.
Context `{Env}.

Lemma ensure_connected_connected c h :
  connected c → BringClient.ensure_connected c h = (Ok tt, c, h).
Proof.
  intros [b Hb]. unfold BringClient.ensure_connected. unfold_M.
  by rewrite Hb.
Qed.

Lemma connect_connects c h r c' h' :
  BringClient.session c = None →
  BringClient.connect c h = (r, c', h') →
  connected c' ∧ BringClient.session c' = Some (length h) ∧
  BringClient._lists_cache c' = BringClient._lists_cache c ∧
  h' = h ++ [SessionOpen (length h); Login].
Proof.
  intros Hs. rewrite connect_unfold, Hs. simpl.
  destruct (command_reply _ _); intros [= <- <- <-];
    (split; [by eexists|done]).
Qed.

(** X1.  A client that has been through its constructor or through
    [disconnect] has no session and no [Bring] object.  On such a client,
    when the login succeeds, [connect] followed by [disconnect] opens one
    session, logs in once, closes that same session and leaves the client as
    it was, the catalog cache included.  [connect] on a client that has a
    session and [disconnect] on a client that has none do nothing. *)
Theorem X1_connect_disconnect_round_trip c h :
  (BringClient.session c = None → BringClient.bring c = None →
   command_reply (h ++ [SessionOpen (length h)]) Login = None →
   (BringClient.connect;; BringClient.disconnect) c h
   = (Ok tt, c,
      h ++ [SessionOpen (length h); Login; SessionClose (length h)])) ∧
  (is_Some (BringClient.session c) → BringClient.connect c h = (Ok tt, c, h)) ∧
  (BringClient.session c = None → BringClient.disconnect c h = (Ok tt, c, h)).
Proof.
  split; [|split].
  - intros Hs Hb Hlogin. unfold_M. rewrite connect_unfold, Hs. simpl.
    rewrite Hlogin, disconnect_unfold. simpl.
    rewrite <- app_assoc. simpl.
    destruct c; simpl in *; by subst.
  - intros [sid Hs]. by rewrite connect_unfold, Hs.
  - intros Hs. by rewrite disconnect_unfold, Hs.
Qed.

(** X2.  [disconnect] leaves the catalog cache in place: a connected client
    that has cached a catalog and is disconnected and used again logs in
    again but does not ask for the catalog; it returns the catalog it had. *)
Theorem X2_cache_survives_disconnect c h sid catalog :
  BringClient.session c = Some sid →
  BringClient._lists_cache c = Some catalog →
  command_reply (h ++ [SessionClose sid; SessionOpen (S (length h))]) Login
    = None →
  ∃ c',
    (BringClient.disconnect;; BringClient.get_lists false) c h
    = (Ok catalog, c',
       h ++ [SessionClose sid; SessionOpen (S (length h)); Login]) ∧
    BringClient._lists_cache c' = Some catalog ∧
    connected c'.
Proof.
  intros Hs Hc Hlogin. unfold_M. rewrite disconnect_unfold, Hs.
  rewrite get_lists_unfold.
  unfold BringClient.ensure_connected. unfold_M. simpl.
  rewrite connect_unfold. simpl.
  rewrite length_app, Nat.add_comm. simpl.
  rewrite <- !app_assoc. simpl. rewrite Hlogin. simpl. rewrite Hc.
  eexists. split; [reflexivity|]. split; [done|by eexists].
Qed.
End Connection.

(** X1 on a client right after its constructor. *)
Lemma X1_witness :
  @mbind _ M_bind _ _ (λ _, BringClient.disconnect)
     (@BringClient.connect one_list) unconnected_client []
  = (Ok tt, unconnected_client, [SessionOpen 0; Login; SessionClose 0]).
Proof.
  apply (proj1 (@X1_connect_disconnect_round_trip one_list
                  unconnected_client [])); reflexivity.
Defined.

(** X2: the client has cached the list ["Weekly"]; the service, asked again,
    would report no list at all. *)
Lemma X2_witness :
  ∃ c',
    @mbind _ M_bind _ _ (λ _, @BringClient.get_lists (serving []) false)
       BringClient.disconnect
       (BringClient.set_lists_cache (Some [weekly]) fresh_client)
       fetched_history
    = (Ok [weekly], c',
       fetched_history ++ [SessionClose 0; SessionOpen 4; Login]) ∧
    BringClient._lists_cache c' = Some [weekly] ∧
    connected c'.
Proof.
  apply (@X2_cache_survives_disconnect (serving [])
           (BringClient.set_lists_cache (Some [weekly]) fresh_client)
           fetched_history 0 [weekly]); reflexivity.
Defined.

(** ** What a connected client is confined to *)

Section Confinement.
Context `{Env}.
Context (I : BringClient.t → Prop) (P : event → Prop).

Lemma confined_ret {A} (a : A) : confined I P (mret a).
Proof.
  intros c h r c' h' HI [= _ <- <-]. split; [done|].
  exists []. by rewrite app_nil_r.
Qed.

Lemma confined_raise {A} e : confined I P (raise (A := A) e).
Proof.
  intros c h r c' h' HI [= _ <- <-]. split; [done|].
  exists []. by rewrite app_nil_r.
Qed.

Lemma confined_this : confined I P this.
Proof.
  intros c h r c' h' HI [= _ <- <-]. split; [done|].
  exists []. by rewrite app_nil_r.
Qed.

Lemma confined_bind {A B} (m : M BringClient.t A) (k : A → M BringClient.t B) :
  confined I P m → (∀ a, confined I P (k a)) → confined I P (m ≫= k).
Proof.
  intros Hm Hk c h r c' h' HI. unfold_M.
  destruct (m c h) as [[[a|e] c1] h1] eqn:E1.
  - intros E2. destruct (Hm _ _ _ _ _ HI E1) as (HI1 & evs1 & -> & Hevs1).
    destruct (Hk a _ _ _ _ _ HI1 E2) as (HI2 & evs2 & -> & Hevs2).
    split; [done|]. exists (evs1 ++ evs2). rewrite app_assoc.
    split; [done|]. by apply Forall_app.
  - intros [= <- <- <-]. by eapply Hm.
Qed.

Lemma confined_fmap {A B} (f : A → B) (m : M BringClient.t A) :
  confined I P m → confined I P (f <$> m).
Proof.
  intros Hm. apply (confined_bind m); [done|]. intros a. apply confined_ret.
Qed.

Lemma confined_assign f : (∀ c, I c → I (f c)) → confined I P (assign f).
Proof.
  intros Hf c h r c' h' HI [= _ <- <-]. split; [by apply Hf|].
  exists []. by rewrite app_nil_r.
Qed.

Lemma confined_command ev : P ev → confined I P (command ev).
Proof.
  intros Hev c h r c' h' HI. unfold command.
  destruct (command_reply h ev); intros [= _ <- <-];
    (split; [done|]); exists [ev]; by repeat constructor.
Qed.

Lemma confined_load_lists : P LoadLists → confined I P load_lists.
Proof.
  intros Hev c h r c' h' HI. unfold load_lists.
  destruct (load_lists_reply h); intros [= _ <- <-];
    (split; [done|]); exists [LoadLists]; by repeat constructor.
Qed.

Lemma confined_get_list list_uuid :
  P (GetList list_uuid) → confined I P (get_list list_uuid).
Proof.
  intros Hev c h r c' h' HI. unfold get_list.
  destruct (get_list_reply h list_uuid); intros [= _ <- <-];
    (split; [done|]); exists [GetList list_uuid]; by repeat constructor.
Qed.

Lemma confined_ensure_connected :
  (∀ c, I c → connected c) → confined I P BringClient.ensure_connected.
Proof.
  intros Hconn c h r c' h' HI. rewrite ensure_connected_connected by auto.
  intros [= _ <- <-]. split; [done|]. exists []. by rewrite app_nil_r.
Qed.

Lemma confined_the_bring : confined I P BringClient.the_bring.
Proof.
  intros c h r c' h' HI. unfold BringClient.the_bring. unfold_M.
  destruct (BringClient.bring c); intros [= _ <- <-];
    (split; [done|]); exists []; by rewrite app_nil_r.
Qed.

(** The methods of the integration. *)

Lemma confines_ret {A} (a : A) : confines I P (mret a).
Proof.
  intros self h r self' h' HI [= _ <- <-]. split; [done|].
  exists []. by rewrite app_nil_r.
Qed.

Lemma confines_raise {A} e : confines I P (raise (A := A) e).
Proof.
  intros self h r self' h' HI [= _ <- <-]. split; [done|].
  exists []. by rewrite app_nil_r.
Qed.

Lemma confines_this : confines I P this.
Proof.
  intros self h r self' h' HI [= _ <- <-]. split; [done|].
  exists []. by rewrite app_nil_r.
Qed.

Lemma confines_pure {A} (r : result A) : confines I P (pure r).
Proof.
  intros self h r' self' h' HI [= _ <- <-]. split; [done|].
  exists []. by rewrite app_nil_r.
Qed.

Lemma confines_bind {A B} (m : M BringIntegration.t A)
      (k : A → M BringIntegration.t B) :
  confines I P m → (∀ a, confines I P (k a)) → confines I P (m ≫= k).
Proof.
  intros Hm Hk self h r self' h' HI. unfold_M.
  destruct (m self h) as [[[a|e] self1] h1] eqn:E1.
  - intros E2. destruct (Hm _ _ _ _ _ HI E1) as (HI1 & evs1 & -> & Hevs1).
    destruct (Hk a _ _ _ _ _ HI1 E2) as (HI2 & evs2 & -> & Hevs2).
    split; [done|]. exists (evs1 ++ evs2). rewrite app_assoc.
    split; [done|]. by apply Forall_app.
  - intros [= <- <- <-]. by eapply Hm.
Qed.

Lemma confines_fmap {A B} (f : A → B) (m : M BringIntegration.t A) :
  confines I P m → confines I P (f <$> m).
Proof.
  intros Hm. apply (confines_bind m); [done|]. intros a. apply confines_ret.
Qed.

Lemma confines_set_default v :
  confines I P (assign (BringIntegration.set_default_list_uuid v)).
Proof.
  intros self h r self' h' [c [Hc HI]] [= _ <- <-].
  split; [by exists c|]. exists []. by rewrite app_nil_r.
Qed.

Lemma confines_on_client {A} (m : M BringClient.t A) :
  confined I P m → confines I P (BringIntegration.on_client m).
Proof.
  intros Hm self h r self' h' [c [Hc HI]].
  unfold BringIntegration.on_client. rewrite Hc.
  destruct (m c h) as [[r1 c1] h1] eqn:E. intros [= <- <- <-].
  destruct (Hm _ _ _ _ _ HI E) as (HI1 & evs & -> & Hevs).
  split; [by exists c1|]. by exists evs.
Qed.

Lemma confines_initialize : confines I P BringIntegration.initialize.
Proof.
  intros self h r self' h' [c [Hc HI]].
  rewrite initialize_again by (by eexists). intros [= _ <- <-].
  split; [by exists c|]. exists []. by rewrite app_nil_r.
Qed.

(** An item operation is confined when its three steps are. *)
Lemma perform_item_steps op list_name self h :
  perform_item op list_name self h =
  (BringIntegration.initialize ≫= λ _,
   BringIntegration.resolve list_name ≫= λ list_uuid,
   BringIntegration.on_client (on_list op list_uuid)) self h.
Proof.
  rewrite perform_item_unfold. unfold_M.
  destruct (BringIntegration.initialize self h) as [[[[]|e] self0] h0];
    [|done].
  by destruct (BringIntegration.resolve list_name self0 h0)
    as [[[list_uuid|e] self1] h1].
Qed.

Lemma confines_perform_item op list_name :
  confines I P (BringIntegration.resolve list_name) →
  (∀ list_uuid, confined I P (on_list op list_uuid)) →
  confines I P (perform_item op list_name).
Proof.
  intros Hres Hreq self h r self' h' HI. rewrite perform_item_steps.
  revert self h r self' h' HI.
  apply confines_bind; [apply confines_initialize|]. intros _.
  apply confines_bind; [done|]. intros list_uuid.
  by apply confines_on_client.
Qed.
End Confinement.

Create HintDb conduct discriminated.
#[export] Hint Resolve confined_ret confined_raise confined_this confined_fmap
  confined_the_bring confines_ret confines_raise confines_this confines_pure
  confines_fmap confines_set_default confines_initialize : conduct.
#[export] Hint Extern 2 (confined _ _ (_ ≫= _)) =>
  apply confined_bind; [|intros ?] : conduct.
#[export] Hint Extern 2 (confines _ _ (_ ≫= _)) =>
  apply confines_bind; [|intros ?] : conduct.
#[export] Hint Extern 3 (confined _ _ (match ?x with _ => _ end)) =>
  destruct x : conduct.
#[export] Hint Extern 3 (confines _ _ (match ?x with _ => _ end)) =>
  destruct x : conduct.
#[export] Hint Extern 3 (confines _ _ (if ?x then _ else _)) =>
  destruct x : conduct.
#[export] Hint Extern 1 (confines _ _ (BringIntegration.on_client _)) =>
  apply confines_on_client : conduct.
#[export] Hint Extern 1 (confined _ _ (command _)) =>
  apply confined_command; done : conduct.
#[export] Hint Extern 1 (confined _ _ load_lists) =>
  apply confined_load_lists; done : conduct.
#[export] Hint Extern 1 (confined _ _ (get_list _)) =>
  apply confined_get_list; done : conduct.

(** ** The public interface on a connected client

    Whatever is kept by the cached catalog fetch, and allows the item
    requests, is kept by every call but [cleanup]. *)

Section ConnectedConduct.
Context `{Env}.
Context (I : BringClient.t → Prop) (P : event → Prop).
Hypothesis I_connected : ∀ c, I c → connected c.
Hypothesis I_get_lists : confined I P (BringClient.get_lists false).
Hypothesis P_item_request : ∀ ev, is_item_request ev = true → P ev.

(** On a connected client an item operation is its one request. *)
Lemma on_list_connected op list_uuid c h :
  connected c →
  on_list op list_uuid c h
  = (answer_of op list_uuid h, c, h ++ [request_of op list_uuid]).
Proof.
  intros [b Hb].
  destruct op; simpl;
    unfold BringClient.get_items, BringClient.add_item,
      BringClient.batch_add_items, BringClient.complete_item,
      BringClient.remove_item, BringClient.ensure_connected,
      BringClient.the_bring, get_list, command;
    unfold_M; rewrite Hb; simpl; rewrite Hb; simpl;
    first [by destruct (get_list_reply _ _)|by destruct (command_reply _ _)].
Qed.

Lemma request_of_is_item_request op list_uuid :
  is_item_request (request_of op list_uuid) = true.
Proof. by destruct op. Qed.

Lemma confined_on_list op list_uuid : confined I P (on_list op list_uuid).
Proof.
  intros c h r c' h' HI. rewrite on_list_connected by auto.
  intros [= _ <- <-]. split; [done|]. eexists. split; [done|].
  repeat constructor. apply P_item_request, request_of_is_item_request.
Qed.

Lemma confined_get_list_by_name n :
  confined I P (BringClient.get_list_by_name n).
Proof. unfold BringClient.get_list_by_name. auto 6 with conduct. Qed.

Lemma confined_client_get_items list_uuid :
  confined I P (BringClient.get_items list_uuid).
Proof.
  unfold BringClient.get_items.
  apply confined_bind; [by apply confined_ensure_connected|]. intros _.
  apply confined_bind; [apply confined_the_bring|]. intros _.
  apply confined_bind; [by apply confined_get_list, P_item_request|].
  intros items. apply confined_ret.
Qed.

Hint Resolve confined_on_list confined_get_list_by_name
  confined_client_get_items : conduct.

Lemma confines_get_lists : confines I P BringIntegration.get_lists.
Proof. unfold BringIntegration.get_lists. auto 6 with conduct. Qed.

Lemma confines_find_list n : confines I P (BringIntegration.find_list n).
Proof. unfold BringIntegration.find_list. auto 6 with conduct. Qed.

Hint Resolve confines_get_lists confines_find_list : conduct.

Lemma confines_resolve list_name :
  confines I P (BringIntegration.resolve list_name).
Proof.
  unfold BringIntegration.resolve, BringIntegration._get_list_uuid.
  auto 12 with conduct.
Qed.

Hint Resolve confines_resolve : conduct.

Lemma confines_get_items list_name :
  confines I P (BringIntegration.get_items list_name).
Proof. unfold BringIntegration.get_items. auto 12 with conduct. Qed.

Hint Resolve confines_get_items : conduct.

Lemma confines_perform c : c ≠ DoCleanup → confines I P (perform c).
Proof.
  intros Hc. destruct c as [| | | | |op list_name|]; try done; simpl;
    unfold BringIntegration.format_list_summary,
      BringIntegration.set_default_list;
    auto 14 with conduct.
  apply confines_perform_item; auto with conduct.
Qed.
End ConnectedConduct.

(** ** One connection for the life of a client *)

Section OneConnection.
Context `{Env}.

Lemma connected_set_lists_cache v c :
  connected c → connected (BringClient.set_lists_cache v c).
Proof. by intros [b Hb]; exists b. Qed.

Lemma linked_ensure_connected :
  confined connected no_connection_event BringClient.ensure_connected.
Proof. by apply confined_ensure_connected. Qed.

Lemma linked_set_lists_cache v :
  confined connected no_connection_event
    (assign (BringClient.set_lists_cache v)).
Proof. apply confined_assign. intros c. apply connected_set_lists_cache. Qed.

Hint Resolve linked_ensure_connected linked_set_lists_cache : conduct.

Lemma linked_get_lists force :
  confined connected no_connection_event (BringClient.get_lists force).
Proof. unfold BringClient.get_lists. auto 12 with conduct. Qed.

Hint Resolve linked_get_lists : conduct.

Lemma linked_perform c :
  c ≠ DoCleanup → confines connected no_connection_event (perform c).
Proof.
  apply confines_perform; [done|apply linked_get_lists|].
  by intros [].
Qed.

(** After [initialize], whatever its outcome, the integration holds a client
    with a [Bring] object. *)
Lemma initialize_links self h r self' h' :
  well_formed self →
  BringIntegration.initialize self h = (r, self', h') →
  is_Some (BringIntegration.client self') ∧ well_formed self' ∧
  (BringIntegration.client self = None → holds connected self').
Proof.
  intros Hwf. rewrite initialize_unfold.
  destruct (BringIntegration.client self) as [c|] eqn:Hc.
  - intros [= _ <- <-]. rewrite Hc. by repeat split; [eexists|..].
  - destruct (BringClient.connect _ h) as [[r1 c1] h1] eqn:E.
    intros [= _ <- <-].
    apply connect_connects in E as (Hconn & _); [|done].
    split; [by eexists|]. split.
    + intros c' [= <-]. intros Hb. destruct Hconn as [b Hb']. congruence.
    + intros _. by exists c1.
Qed.

(** X3.  The integration keeps one connection for as long as it keeps its
    client.  Once it holds a client with a [Bring] object, no call of the
    public interface other than [cleanup] opens or closes an HTTP session or
    logs in, and it still holds such a client afterwards, whether the call
    returns or raises.  A first [initialize] ends in this state even when
    the login raises: a failed login is not tried again, and the calls that
    follow go to the service without it. *)
Theorem X3_one_connection :
  (∀ c self h r self' h',
      c ≠ DoCleanup → holds connected self →
      perform c self h = (r, self', h') →
      holds connected self' ∧
      ∃ evs, h' = h ++ evs ∧ Forall no_connection_event evs) ∧
  (∀ self h r self' h',
      BringIntegration.client self = None →
      BringIntegration.initialize self h = (r, self', h') →
      holds connected self' ∧ h' = h ++ [SessionOpen (length h); Login]).
Proof.
  split.
  - intros c self h r self' h' Hc Hlinked Hrun.
    by eapply linked_perform.
  - intros self h r self' h' Hc. rewrite initialize_unfold, Hc.
    destruct (BringClient.connect _ h) as [[r1 c1] h1] eqn:E.
    intros [= _ <- <-].
    apply connect_connects in E as (Hconn & _ & _ & ->); [|done].
    split; [by exists c1|done].
Qed.
End OneConnection.

(** X3 on a service that rejects the login: [initialize] raises, and the
    [add_item] that follows sends its request without logging in again. *)
Lemma X3_witness :
  ∃ self1,
    @BringIntegration.initialize rejecting new_integration []
    = (Raise (TransportError "401 Unauthorized"), self1,
       [SessionOpen 0; Login]) ∧
    ∃ r self2 evs,
      @perform rejecting (DoItem (DoAddItem "Milk" "") (Some "weekly"))
        self1 [SessionOpen 0; Login]
      = (r, self2, [SessionOpen 0; Login] ++ evs) ∧
      Forall no_connection_event evs.
Proof.
  eexists. split; [reflexivity|].
  destruct (@X3_one_connection rejecting) as [Hcalls Hinit].
  destruct (Hinit new_integration [] _ _ _ eq_refl eq_refl) as [Hlinked _].
  destruct (@perform rejecting (DoItem (DoAddItem "Milk" "") (Some "weekly"))
              _ [SessionOpen 0; Login]) as [[r self2] h2] eqn:Hrun.
  assert (Hother : DoItem (DoAddItem "Milk" "") (Some "weekly") ≠ DoCleanup)
    by discriminate.
  destruct (Hcalls _ _ _ _ _ _ Hother Hlinked Hrun) as (_ & evs & -> & Hevs).
  by exists r, self2, evs.
Defined.

(** ** A session that has fetched the catalog *)

Section CachedSession.
Context `{Env}.
Context (catalog : list ListSummary).

Lemma caches_connected c : caches catalog c → connected c.
Proof. by intros [? _]. Qed.

Lemma caches_get_lists c h :
  caches catalog c → BringClient.get_lists false c h = (Ok catalog, c, h).
Proof. intros [Hconn Hc]. rewrite get_lists_connected by done. by rewrite Hc. Qed.

Lemma caches_confined :
  confined (caches catalog) (λ ev, is_item_request ev = true)
    (BringClient.get_lists false).
Proof.
  intros c h r c' h' HI. rewrite caches_get_lists by done.
  intros [= _ <- <-]. split; [done|]. exists []. by rewrite app_nil_r.
Qed.

Lemma serves_get_lists self h :
  holds (caches catalog) self →
  BringIntegration.get_lists self h = (Ok catalog, self, h).
Proof.
  intros [c [Hc HI]]. rewrite integration_get_lists_unfold.
  rewrite initialize_again by (by eexists).
  unfold BringIntegration.on_client. rewrite Hc, caches_get_lists by done.
  by rewrite set_client_same.
Qed.

Lemma serves_find_list n self h :
  holds (caches catalog) self →
  BringIntegration.find_list n self h
  = (Ok (BringClient.first_by_name n catalog), self, h).
Proof. intros HI. by rewrite find_list_unfold, serves_get_lists. Qed.

Lemma serves_resolve list_name self h :
  holds (caches catalog) self →
  BringIntegration.resolve list_name self h
  = (resolution catalog (BringIntegration._default_list_uuid self) list_name,
     self, h).
Proof.
  intros HI. unfold BringIntegration.resolve, resolution,
    BringIntegration._get_list_uuid.
  destruct (truthy list_name).
  - unfold_M. rewrite serves_find_list by done.
    by destruct (BringClient.first_by_name _ catalog).
  - unfold_M. simpl.
    by destruct (truthy (BringIntegration._default_list_uuid self)).
Qed.

(** An item operation in such a session: the resolution, which sends
    nothing, and then the one request. *)
Lemma serves_perform_item op list_name self h :
  holds (caches catalog) self →
  perform_item op list_name self h =
  match resolution catalog (BringIntegration._default_list_uuid self)
                   list_name with
  | Ok list_uuid =>
      (answer_of op list_uuid h, self, h ++ [request_of op list_uuid])
  | Raise e => (Raise e, self, h)
  end.
Proof.
  intros HI. rewrite perform_item_unfold.
  destruct HI as [c [Hc HI]].
  rewrite initialize_again by (by eexists).
  rewrite serves_resolve by (by exists c).
  destruct (resolution _ _ _) as [list_uuid|e]; [|done].
  unfold BringIntegration.on_client. rewrite Hc.
  rewrite on_list_connected by (by destruct HI).
  by rewrite set_client_same.
Qed.

(** X4.  The integration fetches the catalog once.  In a session whose
    connected client has a catalog in its cache, every call of the public
    interface other than [cleanup] leaves that catalog in the cache and
    sends nothing but item requests: no catalog query, no login.
    [get_lists] and [find_list] answer from the cached catalog and send
    nothing at all, whatever the service would answer now. *)
Theorem X4_catalog_fetched_once :
  (∀ c self h r self' h',
      c ≠ DoCleanup → holds (caches catalog) self →
      perform c self h = (r, self', h') →
      holds (caches catalog) self' ∧
      ∃ evs, h' = h ++ evs ∧ Forall (λ ev, is_item_request ev = true) evs) ∧
  (∀ self h,
      holds (caches catalog) self →
      BringIntegration.get_lists self h = (Ok catalog, self, h) ∧
      ∀ n, BringIntegration.find_list n self h
           = (Ok (BringClient.first_by_name n catalog), self, h)).
Proof.
  split.
  - intros c self h r self' h' Hc HI Hrun.
    eapply (confines_perform (caches catalog)
              (λ ev, is_item_request ev = true)); eauto.
    + apply caches_connected.
    + apply caches_confined.
  - intros self h HI. split; [by apply serves_get_lists|].
    intros n. by apply serves_find_list.
Qed.
End CachedSession.

(** X4: the session has cached the list ["Weekly"]; the service has the
    list ["Party"] by now, and [find_list("party")] does not find it. *)
Lemma X4_witness :
  @BringIntegration.find_list (serving [weekly; party]) "party"
    (session_with [weekly] None) fetched_history
  = (Ok None, session_with [weekly] None, fetched_history).
Proof.
  assert (HI : holds (caches [weekly]) (session_with [weekly] None)).
  { eexists. split; [reflexivity|]. split; [by eexists|done]. }
  apply (proj2 (proj2 (@X4_catalog_fetched_once (serving [weekly; party])
                         [weekly])
                  (session_with [weekly] None) fetched_history HI) "party").
Defined.

(** ** [cleanup] and what it forgets *)

Section Cleanup.
Context `{Env}.

(** X5.  [cleanup] closes the session of the client, drops the client and
    with it the cached catalog, and keeps the default list.  The next
    [get_lists] makes a new client: when the login and the query succeed it
    opens a new session, logs in, asks for the catalog again and returns
    what the service answers now.  [cleanup] without a client does
    nothing. *)
Theorem X5_cleanup_forgets_catalog self h :
  (∀ c sid response,
      BringIntegration.client self = Some c →
      BringClient.session c = Some sid →
      let h1 := h ++ [SessionClose sid] in
      let sid' := length h1 in
      command_reply (h1 ++ [SessionOpen sid']) Login = None →
      load_lists_reply (h1 ++ [SessionOpen sid'; Login]) = inr response →
      BringIntegration.cleanup self h
      = (Ok tt, BringIntegration.set_client None self, h1) ∧
      ∃ self',
        BringIntegration.get_lists (BringIntegration.set_client None self) h1
        = (Ok (default [] (lists response)), self',
           h1 ++ [SessionOpen sid'; Login; LoadLists]) ∧
        holds (caches (default [] (lists response))) self' ∧
        BringIntegration._default_list_uuid self' =
        BringIntegration._default_list_uuid self) ∧
  (BringIntegration.client self = None →
   BringIntegration.cleanup self h = (Ok tt, self, h)).
Proof.
  split.
  - intros c sid response Hc Hs h1 sid' Hlogin Hload. split.
    + unfold BringIntegration.cleanup, BringIntegration.on_client. unfold_M.
      rewrite Hc, Hc, disconnect_unfold, Hs. done.
    + rewrite integration_get_lists_unfold, initialize_unfold. simpl.
      rewrite connect_unfold. simpl. fold h1. fold sid'. rewrite Hlogin.
      unfold BringIntegration.on_client. simpl.
      rewrite get_lists_connected by (by eexists). simpl.
      rewrite Hload. rewrite <- app_assoc. simpl.
      eexists. split; [reflexivity|]. split; [|done].
      eexists. split; [reflexivity|]. split; [by eexists|done].
  - intros Hc. unfold BringIntegration.cleanup. unfold_M. by rewrite Hc.
Qed.
End Cleanup.

(** X5: a session that has cached the list ["Weekly"] and has ["a1"] as its
    default is cleaned up; the service has two lists by now. *)
Lemma X5_witness :
  BringIntegration.cleanup
    (session_with [weekly] (Some "a1")) fetched_history
  = (Ok tt, BringIntegration.set_client None (session_with [weekly] (Some "a1")),
     fetched_history ++ [SessionClose 0]) ∧
  ∃ self',
    @BringIntegration.get_lists (serving [weekly; party])
      (BringIntegration.set_client None (session_with [weekly] (Some "a1")))
      (fetched_history ++ [SessionClose 0])
    = (Ok [weekly; party], self',
       (fetched_history ++ [SessionClose 0]) ++
         [SessionOpen 4; Login; LoadLists]) ∧
    holds (caches [weekly; party]) self' ∧
    BringIntegration._default_list_uuid self' = Some "a1".
Proof.
  apply (proj1 (@X5_cleanup_forgets_catalog (serving [weekly; party])
                  (session_with [weekly] (Some "a1")) fetched_history)
           (BringClient.set_lists_cache (Some [weekly]) fresh_client) 0
           (mkResponse (Some [weekly; party])));
    reflexivity.
Defined.

(** ** The one request of an item operation *)

Section OneRequest.
Context `{Env}.

Lemma on_list_unfold op list_uuid c h :
  on_list op list_uuid c h =
  match BringClient.ensure_connected c h with
  | (Ok _, c1, h1) =>
      match BringClient.bring c1 with
      | Some _ =>
          (answer_of op list_uuid h1, c1, h1 ++ [request_of op list_uuid])
      | None => (Raise AttributeError, c1, h1)
      end
  | (Raise e, c1, h1) => (Raise e, c1, h1)
  end.
Proof.
  destruct op; simpl;
    unfold BringClient.get_items, BringClient.add_item,
      BringClient.batch_add_items, BringClient.complete_item,
      BringClient.remove_item, BringClient.the_bring, get_list, command;
    unfold_M;
    (destruct (BringClient.ensure_connected c h) as [[[[]|e] c1] h1];
     [|done]);
    (destruct (BringClient.bring c1); [|done]);
    first [by destruct (get_list_reply _ _)|by destruct (command_reply _ _)].
Qed.

Lemma answer_of_never_false op list_uuid h :
  answer_of op list_uuid h ≠ Ok (RBool false).
Proof.
  destruct op; simpl;
    first [by destruct (get_list_reply _ _)|by destruct (command_reply _ _)].
Qed.

Lemma resolve_events list_name self h :
  ∃ r self' evs,
    BringIntegration.resolve list_name self h = (r, self', h ++ evs) ∧
    Forall (λ ev, is_item_request ev = false) evs.
Proof.
  unfold BringIntegration.resolve, BringIntegration._get_list_uuid.
  destruct (truthy list_name).
  - unfold_M. rewrite find_list_unfold.
    destruct (integration_get_lists_events self h)
      as (r & self' & evs & -> & Hevs).
    destruct r as [catalog|e]; [|by eexists _, _, _].
    destruct (BringClient.first_by_name _ catalog); by eexists _, _, _.
  - unfold_M. simpl.
    destruct (truthy (BringIntegration._default_list_uuid self));
      eexists _, _, []; by rewrite app_nil_r.
Qed.

(** X6.  An item operation sends at most one item request and does not
    send it again when it fails.  Whatever it sends before (the session, the
    login, the catalog query) is no item request.  When it sends its
    request, that is its last event, and its outcome is the answer of the
    service to it: the contents for [get_items], [True] for the four others,
    or the error of the transport.  None of them returns [False]. *)
Theorem X6_item_operation_one_request op list_name self h r self' h' :
  perform_item op list_name self h = (r, self', h') →
  r ≠ Ok (RBool false) ∧
  ∃ before,
    Forall (λ ev, is_item_request ev = false) before ∧
    ((h' = h ++ before ∧ ∃ e, r = Raise e) ∨
     (∃ list_uuid,
         h' = h ++ before ++ [request_of op list_uuid] ∧
         r = answer_of op list_uuid (h ++ before))).
Proof.
  rewrite perform_item_unfold.
  destruct (initialize_spec self h)
    as (r0 & self0 & evs0 & -> & [c0 Hc0] & _ & Hevs0 & _).
  assert (Hevs0' : Forall (λ ev, is_item_request ev = false) evs0).
  { eapply Forall_impl; [exact Hevs0|]. by intros ev [_ ?]. }
  destruct r0 as [[]|e0]; last first.
  { intros [= <- <- <-]. split; [done|]. exists evs0. split; [done|].
    left. by eauto. }
  destruct (resolve_events list_name self0 (h ++ evs0))
    as (r1 & self1 & evs1 & -> & Hevs1).
  destruct r1 as [list_uuid|e1]; last first.
  { intros [= <- <- <-]. split; [done|]. exists (evs0 ++ evs1).
    split; [by apply Forall_app|]. left. rewrite app_assoc. by eauto. }
  unfold BringIntegration.on_client.
  destruct (BringIntegration.client self1) as [c1|]; last first.
  { intros [= <- <- <-]. split; [done|]. exists (evs0 ++ evs1).
    split; [by apply Forall_app|]. left. rewrite app_assoc. by eauto. }
  rewrite on_list_unfold.
  destruct (ensure_connected_spec c1 ((h ++ evs0) ++ evs1))
    as (r2 & c2 & evs2 & -> & Hevs2 & _ & _).
  assert (Hevs2' : Forall (λ ev, is_item_request ev = false) evs2).
  { eapply Forall_impl; [exact Hevs2|]. by intros ev [_ ?]. }
  assert (Hbefore : Forall (λ ev, is_item_request ev = false)
                           (evs0 ++ evs1 ++ evs2)).
  { by rewrite !Forall_app. }
  assert (Hh : ((h ++ evs0) ++ evs1) ++ evs2 = h ++ evs0 ++ evs1 ++ evs2).
  { by rewrite <- !app_assoc. }
  rewrite Hh. clear Hh.
  destruct r2 as [[]|e2]; last first.
  { intros [= <- <- <-]. split; [done|]. exists (evs0 ++ evs1 ++ evs2).
    split; [done|]. left. by eauto. }
  destruct (BringClient.bring c2); last first.
  { intros [= <- <- <-]. split; [done|]. exists (evs0 ++ evs1 ++ evs2).
    split; [done|]. left. by eauto. }
  intros [= <- <- <-]. split; [apply answer_of_never_false|].
  exists (evs0 ++ evs1 ++ evs2). split; [done|]. right.
  exists list_uuid. by rewrite <- !app_assoc.
Qed.
End OneRequest.

(** X6 on a service that is down once the catalog is there: [add_item]
    sends its request once and raises. *)
Lemma X6_witness :
  @perform_item failing_items (DoAddItem "Milk" "") (Some "weekly")
    new_integration []
  = (Raise (TransportError "503 Service Unavailable"),
     session_with [weekly] None,
     fetched_history ++ [SaveItem "a1" "Milk" ""]) ∧
  ∃ before,
    Forall (λ ev, is_item_request ev = false) before ∧
    (([SessionOpen 0; Login; LoadLists; SaveItem "a1" "Milk" ""]
        = [] ++ before ∧
      ∃ e, @Raise value (TransportError "503 Service Unavailable") = Raise e) ∨
     (∃ list_uuid,
         [SessionOpen 0; Login; LoadLists; SaveItem "a1" "Milk" ""]
         = [] ++ before ++ [request_of (DoAddItem "Milk" "") list_uuid] ∧
         Raise (TransportError "503 Service Unavailable")
         = @answer_of failing_items (DoAddItem "Milk" "") list_uuid
             ([] ++ before))).
Proof.
  split; [reflexivity|].
  apply (@X6_item_operation_one_request failing_items (DoAddItem "Milk" "")
           (Some "weekly") new_integration []
           (Raise (TransportError "503 Service Unavailable"))
           (session_with [weekly] None)
           [SessionOpen 0; Login; LoadLists; SaveItem "a1" "Milk" ""]).
  reflexivity.
Defined.

(** ** From the name of a list to the request *)

Section NamedList.
Context `{Env}.

Lemma ensure_connected_consistent c h r c' h' :
  consistent c →
  BringClient.ensure_connected c h = (r, c', h') →
  connected c'.
Proof.
  intros Hcons. unfold BringClient.ensure_connected. unfold_M.
  destruct (BringClient.bring c) as [b|] eqn:Hb.
  - intros [= _ <- _]. by exists b.
  - intros Hrun. by apply connect_connects in Hrun as [? _]; [|auto].
Qed.

(** A catalog that [get_lists] has returned is in the cache of a connected
    client. *)
Lemma get_lists_caches catalog self h self1 h1 :
  well_formed self →
  BringIntegration.get_lists self h = (Ok catalog, self1, h1) →
  holds (caches catalog) self1.
Proof.
  intros Hwf. rewrite integration_get_lists_unfold.
  destruct (BringIntegration.initialize self h) as [[[[]|e] self0] h0] eqn:E0;
    [|done].
  apply initialize_links in E0 as ([c0 Hc0] & Hwf0 & _); [|done].
  unfold BringIntegration.on_client. rewrite Hc0, get_lists_unfold.
  destruct (BringClient.ensure_connected c0 h0) as [[[[]|e] c1] h2] eqn:E1;
    [|done].
  apply ensure_connected_consistent in E1; [|by apply Hwf0].
  destruct E1 as [b Hb]. rewrite Hb.
  destruct (BringClient._lists_cache c1) as [cached|] eqn:Hcache.
  - intros [= <- <- <-]. eexists. split; [done|]. by split; [exists b|].
  - destruct (load_lists_reply h2); intros [= <- <- <-].
    eexists. split; [done|]. by split; [exists b|].
Qed.

Lemma holds_set_default I v self :
  holds I self → holds I (BringIntegration.set_default_list_uuid v self).
Proof. intros [c [Hc HI]]. by exists c. Qed.

(** X7.  An item operation called with a non-empty list name sends its
    request to the first entry of the catalog that has this name up to case,
    whatever default is stored and however many entries share the name; it
    sends nothing else once the catalog is there, and its outcome is the
    answer of the service. *)
Theorem X7_named_list_first_match op n self h catalog self1 h1 lst :
  well_formed self →
  n ≠ "" →
  BringIntegration.get_lists self h = (Ok catalog, self1, h1) →
  first_named n catalog lst →
  perform_item op (Some n) self h
  = (answer_of op (listUuid lst) h1, self1,
     h1 ++ [request_of op (listUuid lst)]).
Proof.
  intros Hwf Hne Hfetch Hfirst.
  apply first_by_name_Some in Hfirst.
  pose proof (get_lists_caches _ _ _ _ _ Hwf Hfetch) as [c1 [Hc1 [Hconn _]]].
  rewrite perform_item_unfold.
  pose proof Hfetch as Hfetch'.
  rewrite integration_get_lists_unfold in Hfetch'.
  destruct (BringIntegration.initialize self h)
    as [[[[]|e] self0] h0] eqn:Hinit; [|done].
  rewrite resolve_named by done.
  rewrite (get_lists_after_initialize _ _ _ _ Hinit), Hfetch, Hfirst.
  unfold BringIntegration.on_client. rewrite Hc1.
  rewrite on_list_connected by done. by rewrite set_client_same.
Qed.

(** X8.  Once [set_default_list n] has returned [True], the catalog is in
    the cache and the identifier of the first entry named [n] is the stored
    default.  When that identifier is not the empty string, every item
    operation called without a list name is then exactly one request for
    that list: it asks for no catalog and resolves no name. *)
Theorem X8_default_list_then_no_name n self h self' h' :
  well_formed self →
  BringIntegration.set_default_list n self h = (Ok true, self', h') →
  ∃ catalog lst,
    holds (caches catalog) self' ∧
    first_named n catalog lst ∧
    BringIntegration._default_list_uuid self' = Some (listUuid lst) ∧
    (listUuid lst ≠ "" →
     ∀ op h2,
       perform_item op None self' h2
       = (answer_of op (listUuid lst) h2, self',
          h2 ++ [request_of op (listUuid lst)])).
Proof.
  intros Hwf. rewrite set_default_list_unfold, find_list_unfold.
  destruct (BringIntegration.get_lists self h)
    as [[[catalog|e] self1] h1] eqn:Hfetch; [|done].
  destruct (BringClient.first_by_name n catalog) as [lst|] eqn:Hfirst; [|done].
  intros [= <- <-].
  apply get_lists_caches in Hfetch; [|done].
  exists catalog, lst. split; [by apply holds_set_default|].
  split; [by apply first_by_name_Some|]. split; [done|].
  intros Hne op h2.
  rewrite (serves_perform_item catalog) by (by apply holds_set_default).
  unfold resolution. simpl.
  by destruct (String.eqb_spec (listUuid lst) "").
Qed.
End NamedList.

Lemma new_integration_well_formed : well_formed new_integration.
Proof. by intros c. Qed.

(** X7 with two lists named alike and another list as the default: the
    request goes to the first of the two. *)
Lemma X7_witness :
  @perform_item two_weeklies (DoCompleteItem "Milk") (Some "WEEKLY")
    (BringIntegration.set_default_list_uuid (Some "c3") new_integration) []
  = (Ok (RBool true),
     session_with [party; weekly; weekly2] (Some "c3"),
     fetched_history ++ [CompleteItem "a1" "Milk"]).
Proof.
  apply (@X7_named_list_first_match two_weeklies (DoCompleteItem "Milk")
           "WEEKLY"
           (BringIntegration.set_default_list_uuid (Some "c3") new_integration)
           [] [party; weekly; weekly2]
           (session_with [party; weekly; weekly2] (Some "c3"))
           fetched_history weekly).
  - by intros c.
  - discriminate.
  - reflexivity.
  - by apply first_by_name_Some.
Defined.

(** X8 on the scenario of the specification. *)
Lemma X8_witness :
  ∃ catalog lst,
    holds (caches catalog) (session_with [weekly] (Some "a1")) ∧
    @first_named one_list "weekly" catalog lst ∧
    BringIntegration._default_list_uuid (session_with [weekly] (Some "a1"))
    = Some (listUuid lst) ∧
    (listUuid lst ≠ "" →
     ∀ op h2,
       @perform_item one_list op None (session_with [weekly] (Some "a1")) h2
       = (@answer_of one_list op (listUuid lst) h2,
          session_with [weekly] (Some "a1"),
          h2 ++ [request_of op (listUuid lst)])).
Proof.
  apply (@X8_default_list_then_no_name one_list "weekly" new_integration []
           (session_with [weekly] (Some "a1")) fetched_history).
  - exact new_integration_well_formed.
  - reflexivity.
Defined.

(** ** What the public interface can raise *)

Section WhatIsRaised.
Context `{Env}.

Lemma connected_consistent c : connected c → consistent c.
Proof. intros [b Hb] Hnone. congruence. Qed.

Lemma ensure_connected_raises c h e c' h' :
  BringClient.ensure_connected c h = (Raise e, c', h') → transport_error e.
Proof.
  unfold BringClient.ensure_connected. unfold_M.
  destruct (BringClient.bring c); [done|]. apply connect_raises.
Qed.

Lemma sound_get_lists force : sound (BringClient.get_lists force).
Proof.
  intros c h r c' h' Hcons. rewrite get_lists_unfold.
  destruct (BringClient.ensure_connected c h) as [[r1 c1] h1] eqn:E1.
  pose proof (ensure_connected_consistent _ _ _ _ _ Hcons E1) as Hconn.
  destruct r1 as [[]|e1].
  - destruct Hconn as [b Hb]. rewrite Hb.
    destruct (BringClient._lists_cache c1), force;
      try destruct (load_lists_reply h1);
      intros [= <- <- <-];
      (split; [apply connected_consistent; by exists b|]);
      intros e [= <-]; by eexists.
  - intros [= <- <- <-]. split; [by apply connected_consistent|].
    intros e [= <-]. by eapply ensure_connected_raises.
Qed.

Lemma sound_get_list_by_name n : sound (BringClient.get_list_by_name n).
Proof.
  intros c h r c' h' Hcons. rewrite get_list_by_name_unfold.
  destruct (BringClient.get_lists false c h) as [[r1 c1] h1] eqn:E1.
  destruct (sound_get_lists false _ _ _ _ _ Hcons E1) as [Hcons1 Hraise].
  destruct r1; intros [= <- <- <-]; (split; [done|]); [done|].
  intros e' [= <-]. by apply Hraise.
Qed.

Lemma sound_on_list op list_uuid : sound (on_list op list_uuid).
Proof.
  intros c h r c' h' Hcons. rewrite on_list_unfold.
  destruct (BringClient.ensure_connected c h) as [[r1 c1] h1] eqn:E1.
  pose proof (ensure_connected_consistent _ _ _ _ _ Hcons E1) as Hconn.
  destruct r1 as [[]|e1].
  - destruct Hconn as [b Hb]. rewrite Hb. intros [= <- <- <-].
    split; [apply connected_consistent; by exists b|].
    destruct op; simpl;
      first [destruct (get_list_reply _ _)|destruct (command_reply _ _)];
      intros e [= <-]; by eexists.
  - intros [= <- <- <-]. split; [by apply connected_consistent|].
    intros e [= <-]. by eapply ensure_connected_raises.
Qed.

Section Guarded.
Context (E : exn → Prop).
Hypothesis E_transport : ∀ e, transport_error e → E e.

Lemma guarded_ret {A} (a : A) : guarded E (mret a).
Proof. by intros self h r self' h' Hwf Hc [= <- <- _]. Qed.

Lemma guarded_this : guarded E this.
Proof. by intros self h r self' h' Hwf Hc [= <- <- _]. Qed.

Lemma guarded_raise {A} e : E e → guarded E (raise (A := A) e).
Proof.
  intros He self h r self' h' Hwf Hc [= <- <- _].
  repeat split; [done..|]. by intros e' [= <-].
Qed.

Lemma guarded_pure {A} (r : result A) :
  (∀ e, r = Raise e → E e) → guarded E (pure r).
Proof. by intros He self h r' self' h' Hwf Hc [= <- <- _]. Qed.

Lemma guarded_bind {A B} (m : M BringIntegration.t A)
      (k : A → M BringIntegration.t B) :
  guarded E m → (∀ a, guarded E (k a)) → guarded E (m ≫= k).
Proof.
  intros Hm Hk self h r self' h' Hwf Hc. unfold_M.
  destruct (m self h) as [[[a|e] self1] h1] eqn:E1.
  - intros E2. destruct (Hm _ _ _ _ _ Hwf Hc E1) as (Hwf1 & Hc1 & _).
    by eapply Hk.
  - intros [= <- <- <-]. destruct (Hm _ _ _ _ _ Hwf Hc E1) as (? & ? & He).
    repeat split; [done..|]. intros e' [= <-]. by apply He.
Qed.

Lemma guarded_fmap {A B} (f : A → B) (m : M BringIntegration.t A) :
  guarded E m → guarded E (f <$> m).
Proof.
  intros Hm. apply (guarded_bind m); [done|]. intros a. apply guarded_ret.
Qed.

Lemma guarded_set_default v :
  guarded E (assign (BringIntegration.set_default_list_uuid v)).
Proof. by intros self h r self' h' Hwf Hc [= <- <- _]. Qed.

Lemma guarded_on_client {A} (m : M BringClient.t A) :
  sound m → guarded E (BringIntegration.on_client m).
Proof.
  intros Hm self h r self' h' Hwf [c Hc].
  unfold BringIntegration.on_client. rewrite Hc.
  destruct (m c h) as [[r1 c1] h1] eqn:E1. intros [= <- <- <-].
  destruct (Hm _ _ _ _ _ (Hwf c Hc) E1) as [Hcons1 Hraise].
  split; [by intros c' [= <-]|]. split; [by eexists|].
  intros e He. by apply E_transport, Hraise.
Qed.

Lemma guarded_initialize : guarded E BringIntegration.initialize.
Proof.
  intros self h r self' h' Hwf Hc. rewrite initialize_again by done.
  by intros [= <- <- _].
Qed.

Lemma guarded_get_lists : guarded E BringIntegration.get_lists.
Proof.
  unfold BringIntegration.get_lists.
  apply guarded_bind; [apply guarded_initialize|]. intros _.
  apply guarded_on_client, sound_get_lists.
Qed.

Lemma guarded_find_list n : guarded E (BringIntegration.find_list n).
Proof.
  unfold BringIntegration.find_list.
  apply guarded_bind; [apply guarded_initialize|]. intros _.
  apply guarded_on_client, sound_get_list_by_name.
Qed.

Lemma guarded_set_default_list n :
  guarded E (BringIntegration.set_default_list n).
Proof.
  unfold BringIntegration.set_default_list.
  apply guarded_bind; [apply guarded_find_list|]. intros [lst|].
  - apply guarded_bind; [apply guarded_set_default|]. intros _.
    apply guarded_ret.
  - apply guarded_ret.
Qed.

Lemma guarded_resolve list_name :
  (∀ e, resolution_error list_name e → E e) →
  guarded E (BringIntegration.resolve list_name).
Proof.
  intros He. unfold BringIntegration.resolve, BringIntegration._get_list_uuid.
  destruct (truthy list_name) eqn:Htruthy.
  - destruct list_name as [n|]; [|done]. simpl in *.
    apply guarded_bind; [apply guarded_find_list|]. intros [lst|].
    + apply guarded_ret.
    + apply guarded_raise, He. right. exists n. split; [done|].
      split; [|done]. by intros ->.
  - apply guarded_bind; [apply guarded_this|]. intros self. simpl.
    destruct (truthy (BringIntegration._default_list_uuid self)).
    + apply guarded_ret.
    + apply guarded_raise, He. by left.
Qed.

Lemma guarded_perform_item op list_name :
  (∀ e, resolution_error list_name e → E e) →
  guarded E (perform_item op list_name).
Proof.
  intros He self h r self' h' Hwf Hc. rewrite perform_item_steps.
  revert self h r self' h' Hwf Hc.
  apply guarded_bind; [apply guarded_initialize|]. intros _.
  apply guarded_bind; [by apply guarded_resolve|]. intros list_uuid.
  apply guarded_on_client, sound_on_list.
Qed.

Lemma guarded_get_items list_name :
  (∀ e, resolution_error list_name e → E e) →
  guarded E (BringIntegration.get_items list_name).
Proof.
  intros He. unfold BringIntegration.get_items.
  apply guarded_bind; [apply guarded_initialize|]. intros _.
  apply guarded_bind; [by apply guarded_resolve|]. intros list_uuid.
  apply guarded_on_client.
  intros c h r c' h' Hcons Hrun.
  assert (Hreq : on_list DoGetItems list_uuid c h
                 = (match r with
                    | Ok v => Ok (RContents v)
                    | Raise e => Raise e
                    end, c', h')).
  { simpl. unfold_M. rewrite Hrun. by destruct r. }
  destruct (sound_on_list _ _ _ _ _ _ _ Hcons Hreq) as [Hcons' Hraise].
  split; [done|]. intros e ->. by apply Hraise.
Qed.
End Guarded.
End WhatIsRaised.

(** ** The text of a summary *)

Section SummaryText.
Context `{Env}.

Lemma subscript_name_raises lst e :
  BringIntegration.subscript_name lst = Raise e → e = KeyError "name".
Proof.
  unfold BringIntegration.subscript_name. destruct (name lst); [done|].
  by intros [= <-].
Qed.

Lemma default_display_name_raises default_list_uuid catalog e :
  BringIntegration.default_display_name default_list_uuid catalog = Raise e →
  e = KeyError "name".
Proof.
  induction catalog as [|lst rest IH]; simpl; [done|].
  case_decide; [apply subscript_name_raises|done].
Qed.

Lemma item_line_Ok mark item :
  has_name item → ∃ line, BringIntegration.item_line mark item = Ok line.
Proof.
  intros [n Hn]. unfold BringIntegration.item_line. rewrite Hn. by eexists.
Qed.

Lemma item_line_Raise mark item :
  ¬ has_name item →
  BringIntegration.item_line mark item = Raise (KeyError "name").
Proof.
  intros Hn. unfold BringIntegration.item_line.
  destruct (item !! "name") eqn:E; [|done]. destruct Hn. by eexists.
Qed.

Lemma item_lines_Ok mark items :
  Forall has_name items →
  ∃ lines, BringIntegration.item_lines mark items = Ok lines ∧
           length lines = length items.
Proof.
  induction 1 as [|item items Hitem _ (lines & IH & Hlen)]; simpl.
  - by exists [].
  - destruct (item_line_Ok mark item Hitem) as [line ->]. rewrite IH.
    exists (line :: lines). by rewrite <- Hlen.
Qed.

Lemma item_lines_Raise mark items :
  ¬ Forall has_name items →
  BringIntegration.item_lines mark items = Raise (KeyError "name").
Proof.
  induction items as [|item items IH]; simpl.
  - intros Hn. destruct Hn. constructor.
  - intros Hn. destruct (decide (has_name item)) as [Hitem|Hitem].
    + destruct (item_line_Ok mark item Hitem) as [line ->].
      rewrite IH; [done|]. intros Hall. apply Hn. by constructor.
    + by rewrite item_line_Raise.
Qed.

(** X9.  The text of a summary is made from the items to buy and from the
    first five recently purchased items, and from nothing else of the
    contents: with a ['recently'] list cut after its fifth element the text
    is the same.  It is produced exactly when each of these items has the key
    ['name']; otherwise the method raises [KeyError('name')].  Contents
    without the keys ['purchase'] and ['recently'] give a text. *)
Theorem X9_summary_text display_name items :
  BringIntegration.summary_text display_name items
  = BringIntegration.summary_text display_name
      (<["recently" := take 5 (default [] (items !! "recently"))]> items) ∧
  (Forall has_name (rendered_items items) →
   ∃ text, BringIntegration.summary_text display_name items = Ok text) ∧
  (¬ Forall has_name (rendered_items items) →
   BringIntegration.summary_text display_name items = Raise (KeyError "name")) ∧
  (items !! "purchase" = None → items !! "recently" = None →
   ∃ text, BringIntegration.summary_text display_name items = Ok text).
Proof.
  assert (Hshown : Forall has_name (rendered_items items) →
    ∃ text, BringIntegration.summary_text display_name items = Ok text).
  { unfold rendered_items, BringIntegration.summary_text.
    intros [Hp Hr]%Forall_app.
    destruct (item_lines_Ok "â˜" _ Hp) as (lp & -> & _).
    destruct (item_lines_Ok "âœ“" _ Hr) as (lr & -> & _).
    destruct (default [] (items !! "purchase")),
      (default [] (items !! "recently")); by eexists. }
  split; [|split; [done|split]].
  - unfold BringIntegration.summary_text.
    rewrite lookup_insert_eq, lookup_insert_ne by done. simpl.
    rewrite take_take, Nat.min_id.
    destruct (default [] (items !! "purchase")) as [|p ps];
      by destruct (default [] (items !! "recently")) as [|r rs].
  - unfold rendered_items, BringIntegration.summary_text.
    intros Hn.
    destruct (decide (Forall has_name (default [] (items !! "purchase"))))
      as [Hp|Hp].
    + assert (Hr : ¬ Forall has_name
                       (take 5 (default [] (items !! "recently")))).
      { intros Hr. apply Hn. by apply Forall_app. }
      destruct (item_lines_Ok "â˜" _ Hp) as (lp & -> & _).
      rewrite (item_lines_Raise "âœ“" _ Hr).
      destruct (default [] (items !! "recently")) as [|r rs].
      { destruct Hr. constructor. }
      by destruct (default [] (items !! "purchase")).
    + rewrite (item_lines_Raise "â˜" _ Hp).
      destruct (default [] (items !! "purchase")); [|done].
      destruct Hp. constructor.
  - intros Hp Hr. apply Hshown. unfold rendered_items. rewrite Hp, Hr.
    constructor.
Qed.
End SummaryText.


(** X9 on the contents of the docstring of [get_items], and on contents with
    a nameless item to buy. *)
Lemma X9_witness :
  (∃ text, BringIntegration.summary_text "Weekly" milk_bread_eggs = Ok text) ∧
  BringIntegration.summary_text "Weekly"
    {[ "purchase" := [ {[ "specification" := VStr "1 liter" ]} ] ]}
  = Raise (KeyError "name").
Proof.
  split.
  - apply (proj1 (proj2 (X9_summary_text "Weekly" milk_bread_eggs))).
    by apply (bool_decide_unpack _).
  - apply (proj1 (proj2 (proj2 (X9_summary_text "Weekly"
             {[ "purchase" := [ {[ "specification" := VStr "1 liter" ]} ] ]})))).
    by apply (bool_decide_unpack _).
Defined.

(** ** The exceptions of a session *)

Section Taxonomy.
Context `{Env}.

Lemma item_lines_raises mark items e :
  BringIntegration.item_lines mark items = Raise e → e = KeyError "name".
Proof.
  induction items as [|item items IH]; simpl; [done|].
  unfold BringIntegration.item_line.
  destruct (item !! "name"); [|by intros [= <-]].
  destruct (BringIntegration.item_lines mark items); [done|].
  intros [= <-]. by apply IH.
Qed.

Lemma summary_text_raises display_name items e :
  BringIntegration.summary_text display_name items = Raise e →
  e = KeyError "name".
Proof.
  unfold BringIntegration.summary_text.
  destruct (default [] (items !! "purchase")) as [|p ps].
  - destruct (default [] (items !! "recently")) as [|r rs]; [done|].
    destruct (BringIntegration.item_lines _ (take 5 (r :: rs))) eqn:E;
      [done|].
    intros [= <-]. by eapply item_lines_raises.
  - destruct (BringIntegration.item_lines _ (p :: ps)) eqn:E1; last first.
    { intros [= <-]. by eapply item_lines_raises. }
    destruct (default [] (items !! "recently")) as [|r rs]; [done|].
    destruct (BringIntegration.item_lines _ (take 5 (r :: rs))) eqn:E2;
      [done|].
    intros [= <-]. by eapply item_lines_raises.
Qed.

Lemma guarded_format_list_summary E list_name :
  (∀ e, transport_error e → E e) →
  (∀ e, resolution_error list_name e → E e) →
  E (KeyError "name") →
  guarded E (BringIntegration.format_list_summary list_name).
Proof.
  intros Ht He Hk. unfold BringIntegration.format_list_summary.
  apply guarded_bind; [by apply guarded_get_items|]. intros items.
  apply guarded_bind.
  - destruct (truthy list_name).
    + apply guarded_bind; [by apply guarded_find_list|]. intros [lst|].
      * apply guarded_pure. by intros e ->%subscript_name_raises.
      * apply guarded_ret.
    + apply guarded_bind; [by apply guarded_get_lists|]. intros catalog.
      apply guarded_bind; [apply guarded_this|]. intros self.
      apply guarded_pure. by intros e ->%default_display_name_raises.
  - intros display_name. apply guarded_pure.
    by intros e ->%summary_text_raises.
Qed.

(** Every call but [cleanup] raises nothing else than [may_raise] allows,
    once the integration has a client. *)
Lemma guarded_perform c :
  c ≠ DoCleanup → guarded (may_raise c) (perform c).
Proof.
  intros Hc. destruct c as [| | |n|n|op list_name|list_name]; simpl;
    try done.
  - apply guarded_bind; [by apply guarded_initialize|]. intros _.
    apply guarded_ret.
  - by apply guarded_fmap, guarded_get_lists.
  - by apply guarded_fmap, guarded_find_list.
  - by apply guarded_fmap, guarded_set_default_list.
  - apply guarded_perform_item; [by left|by right].
  - apply guarded_fmap, guarded_format_list_summary; simpl; auto.
Qed.

Lemma starts_initialize_then {A} (k : unit → M BringIntegration.t A) :
  starts_with_initialize (BringIntegration.initialize ≫= k).
Proof.
  intros self h. unfold_M.
  destruct (BringIntegration.initialize self h) as [[[[]|e] self0] h0] eqn:E;
    [|done].
  destruct (initialize_spec self h) as (r & self' & evs & E' & Hc & _).
  rewrite E in E'. injection E' as <- <- ->.
  by rewrite initialize_again.
Qed.

Lemma starts_bind {A B} (m : M BringIntegration.t A)
      (k : A → M BringIntegration.t B) :
  starts_with_initialize m → starts_with_initialize (m ≫= k).
Proof.
  intros Hm self h. unfold_M. rewrite (Hm self h).
  by destruct (BringIntegration.initialize self h) as [[[[]|e] self0] h0].
Qed.

Lemma starts_fmap {A B} (f : A → B) (m : M BringIntegration.t A) :
  starts_with_initialize m → starts_with_initialize (f <$> m).
Proof. intros Hm. by apply (starts_bind m). Qed.

Lemma starts_perform_item op list_name :
  starts_with_initialize (perform_item op list_name).
Proof.
  intros self h. rewrite !perform_item_steps.
  rewrite (starts_initialize_then _ self h).
  destruct (BringIntegration.initialize self h) as [[[[]|e] self0] h0];
    [|done].
  by rewrite perform_item_steps.
Qed.

(** Every call but [cleanup] starts with [initialize]. *)
Lemma starts_perform c :
  c ≠ DoCleanup → starts_with_initialize (perform c).
Proof.
  intros Hc. destruct c as [| | |n|n|op list_name|list_name]; simpl;
    try done.
  - apply starts_initialize_then.
  - apply starts_fmap, starts_initialize_then.
  - apply starts_fmap, starts_initialize_then.
  - apply starts_fmap, starts_bind, starts_initialize_then.
  - apply starts_perform_item.
  - apply starts_fmap, starts_bind. unfold BringIntegration.get_items.
    apply starts_initialize_then.
Qed.

Lemma cleanup_unfold self h :
  BringIntegration.cleanup self h =
  match BringIntegration.client self with
  | Some c =>
      match BringClient.disconnect c h with
      | (_, _, h') => (Ok tt, BringIntegration.set_client None self, h')
      end
  | None => (Ok tt, self, h)
  end.
Proof.
  unfold BringIntegration.cleanup, BringIntegration.on_client. unfold_M.
  destruct (BringIntegration.client self) as [c|] eqn:Hc; [|done]. simpl.
  rewrite Hc, disconnect_unfold.
  by destruct (BringClient.session c).
Qed.

Lemma may_raise_no_attribute_error c : ¬ may_raise c AttributeError.
Proof.
  assert (Ht : ¬ transport_error AttributeError) by (by intros [msg ?]).
  assert (Hr : ∀ list_name, ¬ resolution_error list_name AttributeError).
  { by intros list_name [[_ ?]|(n & _ & _ & ?)]. }
  destruct c as [| | |n|n|op list_name|list_name]; simpl; try tauto.
  - specialize (Hr list_name). tauto.
  - specialize (Hr list_name). intros [?|[?|?]]; [tauto..|done].
Qed.

(** One call on a well-formed integration. *)
Lemma perform_raises c self h r self' h' :
  well_formed self →
  perform c self h = (r, self', h') →
  well_formed self' ∧ ∀ e, r = Raise e → may_raise c e.
Proof.
  intros Hwf.
  assert (Hcase : c = DoCleanup ∨ c ≠ DoCleanup).
  { destruct c; by (left + right). }
  destruct Hcase as [->|Hc].
  - simpl. unfold_M. rewrite cleanup_unfold.
    destruct (BringIntegration.client self) as [cl|].
    + destruct (BringClient.disconnect cl h) as [[r1 c1] h1].
      intros [= <- <- <-]. split; [by intros c' [=]|done].
    + by intros [= <- <- <-].
  - rewrite (starts_perform c Hc self h).
    destruct (BringIntegration.initialize self h) as [[r0 self0] h0] eqn:E0.
    destruct (initialize_links _ _ _ _ _ Hwf E0) as (Hc0 & Hwf0 & _).
    destruct r0 as [[]|e0].
    + intros Hrun.
      destruct (guarded_perform c Hc _ _ _ _ _ Hwf0 Hc0 Hrun)
        as (Hwf' & _ & Hraise).
      by split.
    + intros [= <- <- <-]. split; [done|]. intros e [= <-].
      apply initialize_no_value_error in E0.
      assert (Ht : transport_error e0) by done.
      destruct c; simpl; tauto.
Qed.

(** X10.  What a session raises.  Started on a well-formed integration (one
    that holds no client, as after the constructor, or a client that has no
    session when it has no [Bring] object, as every method of the client
    leaves it), every call of the public interface leaves it well formed,
    and a caller that goes on after an
    exception sees, call by call, nothing but: an error of the transport;
    from an item operation or [format_list_summary], the no-default error
    when the list name is absent or empty and the list-not-found error for a
    non-empty name; from [format_list_summary], [KeyError('name')].
    [cleanup] raises nothing.  No call raises [AttributeError]: the guards
    [if not self.bring] and [initialize] see to it that [self.bring] and
    [self.client] are there when they are used. *)
Theorem X10_what_is_raised calls self h rs self' h' :
  well_formed self →
  session calls self h = (rs, self', h') →
  well_formed self' ∧
  Forall2 (λ c r, ∀ e, r = Raise e → may_raise c e ∧ e ≠ AttributeError)
          calls rs.
Proof.
  revert self h rs self' h'.
  induction calls as [|c calls IH]; intros self h rs self' h' Hwf; simpl.
  - intros [= <- <- <-]. by split.
  - destruct (perform c self h) as [[r self1] h1] eqn:E1.
    destruct (perform_raises _ _ _ _ _ _ Hwf E1) as [Hwf1 Hr].
    destruct (session calls self1 h1) as [[rs2 self2] h2] eqn:E2.
    destruct (IH _ _ _ _ _ Hwf1 E2) as [Hwf2 Hrs].
    intros [= <- <- <-]. split; [done|]. constructor; [|done].
    intros e He. split; [by apply Hr|]. intros ->.
    by apply (may_raise_no_attribute_error c), Hr.
Qed.
End Taxonomy.


(** X10 on a service that rejects the login: the first call raises the error
    of the transport, the unknown name and the missing default raise their
    two errors, [cleanup] returns. *)
Lemma X10_witness :
  @session rejecting
    [DoGetLists; DoItem DoGetItems (Some "Groceries");
     DoFormatListSummary None; DoCleanup] new_integration []
  = ([Raise (TransportError "401 Unauthorized");
      Raise (ListNotFound "Groceries");
      Raise NoDefaultListConfigured;
      Ok RNone],
     new_integration,
     [SessionOpen 0; Login; LoadLists; SessionClose 0]) ∧
  well_formed new_integration ∧
  Forall2 (λ c r, ∀ e, r = Raise e → may_raise c e ∧ e ≠ AttributeError)
    [DoGetLists; DoItem DoGetItems (Some "Groceries");
     DoFormatListSummary None; DoCleanup]
    [Raise (TransportError "401 Unauthorized");
     Raise (ListNotFound "Groceries");
     Raise NoDefaultListConfigured;
     Ok RNone].
Proof.
  split; [reflexivity|].
  apply (@X10_what_is_raised rejecting
           [DoGetLists; DoItem DoGetItems (Some "Groceries");
            DoFormatListSummary None; DoCleanup]
           new_integration []
           [Raise (TransportError "401 Unauthorized");
            Raise (ListNotFound "Groceries");
            Raise NoDefaultListConfigured;
            Ok RNone]
           new_integration
           [SessionOpen 0; Login; LoadLists; SessionClose 0]).
  - apply new_integration_well_formed.
  - reflexivity.
Defined.

(** ** The constructor and its credentials *)

Section Credentials.
Context `{Env}.

Lemma or_else_truthy a b :
  truthy (BringIntegration.or_else a b) = truthy a || truthy b.
Proof. unfold BringIntegration.or_else. by destruct (truthy a) eqn:E. Qed.

Lemma truthy_default o :
  truthy o = true → Some (default "" o) = o ∧ default "" o ≠ "".
Proof. destruct o as [s|]; [|done]. simpl. by destruct s. Qed.

(** X11.  The constructor and the two credentials.  Each credential is the
    argument when that is a non-empty string, and the environment variable
    otherwise: an empty argument counts as none.  The constructor raises its
    [ValueError] exactly when one of the two is then still missing or empty,
    and otherwise returns an object with two non-empty credentials, no
    client (nothing is sent before the first call) and no default list. *)
Theorem X11_credentials email password :
  (BringIntegration.__init__ email password = Raise CredentialsMissing ↔
   (truthy email = false ∧ truthy (getenv "BRING_EMAIL") = false) ∨
   (truthy password = false ∧ truthy (getenv "BRING_PASSWORD") = false)) ∧
  (∀ self,
      BringIntegration.__init__ email password = Ok self ↔
      ((truthy email = true ∧ email = Some (BringIntegration.email self)) ∨
       (truthy email = false ∧
        getenv "BRING_EMAIL" = Some (BringIntegration.email self))) ∧
      ((truthy password = true ∧
        password = Some (BringIntegration.password self)) ∨
       (truthy password = false ∧
        getenv "BRING_PASSWORD" = Some (BringIntegration.password self))) ∧
      BringIntegration.email self ≠ "" ∧
      BringIntegration.password self ≠ "" ∧
      BringIntegration.client self = None ∧
      BringIntegration._default_list_uuid self = None) ∧
  (∀ e, BringIntegration.__init__ email password = Raise e →
        e = CredentialsMissing) ∧
  BringIntegration.__init__ (Some "") password
  = BringIntegration.__init__ None password ∧
  BringIntegration.__init__ email (Some "")
  = BringIntegration.__init__ email None.
Proof.
  unfold BringIntegration.__init__.
  split; [|split; [|split; [|split]]].
  - rewrite <- negb_andb, !or_else_truthy.
    destruct (truthy email), (truthy (getenv "BRING_EMAIL")),
      (truthy password), (truthy (getenv "BRING_PASSWORD")); simpl;
      (split; [intros Heq; first [done|by left|by right]
              |by intros [[? ?]|[? ?]]]).
  - intros self. rewrite <- negb_andb, !or_else_truthy.
    unfold BringIntegration.or_else.
    destruct (truthy email) eqn:He, (truthy password) eqn:Hp; simpl.
    + destruct (truthy_default _ He) as [He1 He2].
      destruct (truthy_default _ Hp) as [Hp1 Hp2].
      split.
      * intros [= <-]. simpl. by repeat split; [left|left|..].
      * destruct self as [e p c d]. simpl.
        intros ([[_ ->]|[? _]] & [[_ ->]|[? _]] & _ & _ & -> & ->); done.
    + destruct (truthy (getenv "BRING_PASSWORD")) eqn:Hp'; simpl.
      * destruct (truthy_default _ He) as [He1 He2].
        destruct (truthy_default _ Hp') as [Hp1 Hp2].
        split.
        -- intros [= <-]. simpl. by repeat split; [left|right|..].
        -- destruct self as [e p c d]. simpl.
           intros ([[_ ->]|[? _]] & [[? _]|[_ ->]] & _ & _ & -> & ->); done.
      * split; [done|].
        intros (_ & [[? _]|[_ Hget]] & _ & Hne & _); [done|].
        rewrite Hget in Hp'. simpl in Hp'.
        by destruct (BringIntegration.password self).
    + destruct (truthy (getenv "BRING_EMAIL")) eqn:He'; simpl.
      * destruct (truthy_default _ He') as [He1 He2].
        destruct (truthy_default _ Hp) as [Hp1 Hp2].
        split.
        -- intros [= <-]. simpl. by repeat split; [right|left|..].
        -- destruct self as [e p c d]. simpl.
           intros ([[? _]|[_ ->]] & [[_ ->]|[? _]] & _ & _ & -> & ->); done.
      * split; [done|].
        intros ([[? _]|[_ Hget]] & _ & Hne & _); [done|].
        rewrite Hget in He'. simpl in He'.
        by destruct (BringIntegration.email self).
    + destruct (truthy (getenv "BRING_EMAIL")) eqn:He'; simpl.
      * destruct (truthy (getenv "BRING_PASSWORD")) eqn:Hp'; simpl.
        -- destruct (truthy_default _ He') as [He1 He2].
           destruct (truthy_default _ Hp') as [Hp1 Hp2].
           split.
           ++ intros [= <-]. simpl. by repeat split; [right|right|..].
           ++ destruct self as [e p c d]. simpl.
              intros ([[? _]|[_ ->]] & [[? _]|[_ ->]] & _ & _ & -> & ->);
                done.
        -- split; [done|].
           intros (_ & [[? _]|[_ Hget]] & _ & Hne & _); [done|].
           rewrite Hget in Hp'. simpl in Hp'.
           by destruct (BringIntegration.password self).
      * split; [done|].
        intros ([[? _]|[_ Hget]] & _ & Hne & _); [done|].
        rewrite Hget in He'. simpl in He'.
        by destruct (BringIntegration.email self).
  - intros e. destruct (_ || _); [by intros [= <-]|done].
  - done.
  - unfold BringIntegration.or_else. by destruct (truthy email).
Qed.
End Credentials.

(** X11 with an empty e-mail argument and no password argument: both
    credentials come from the environment. *)
Lemma X11_witness :
  @BringIntegration.__init__ from_environment (Some "") None
  = Ok (BringIntegration.mk "env@example.org" "hunter2" None None).
Proof.
  apply (proj2 (proj1 (proj2 (@X11_credentials from_environment
                                (Some "") None))
                  (BringIntegration.mk "env@example.org" "hunter2" None None))).
  by repeat split; [right|right|..].
Defined.


(** ** [get_user_info] *)

Section UserInfo.
Context `{Env}.

Lemma ensure_connected_email c h r c1 h1 :
  BringClient.ensure_connected c h = (r, c1, h1) →
  BringClient.email c1 = BringClient.email c.
Proof.
  unfold BringClient.ensure_connected. unfold_M.
  destruct (BringClient.bring c) as [b|]; [by intros [= _ <- _]|].
  rewrite connect_unfold.
  destruct (BringClient.session c) as [sid|]; [by intros [= _ <- _]|].
  simpl. by destruct (command_reply _ _); intros [= _ <- _].
Qed.

Lemma get_lists_email force c h r c1 h1 :
  BringClient.get_lists force c h = (r, c1, h1) →
  BringClient.email c1 = BringClient.email c.
Proof.
  rewrite get_lists_unfold.
  destruct (BringClient.ensure_connected c h) as [[r0 c0] h0] eqn:E0.
  apply ensure_connected_email in E0.
  destruct r0 as [[]|e0]; [|by intros [= _ <- _]].
  destruct (BringClient._lists_cache c0), force, (BringClient.bring c0);
    try destruct (load_lists_reply h0);
    by intros [= _ <- _].
Qed.

(** X12.  [get_user_info] is [get_lists] with a count.  It sends what
    [get_lists()] sends and nothing more (its own connection step adds
    nothing to the one of [get_lists]), leaves the client as [get_lists]
    leaves it, raises what [get_lists] raises, and otherwise reports the
    e-mail address the client was made with and the number of lists of the
    catalog [get_lists] returned, which is the cached one when there is
    one. *)
Theorem X12_get_user_info c h :
  BringClient.get_user_info c h =
  match BringClient.get_lists false c h with
  | (Ok catalog, c', h') =>
      (Ok ({[ "email" := VStr (BringClient.email c);
              "list_count" := VInt (Z.of_nat (length catalog)) ]} : pydict),
       c', h')
  | (Raise e, c', h') => (Raise e, c', h')
  end.
Proof.
  unfold BringClient.get_user_info. unfold_M.
  destruct (BringClient.ensure_connected c h) as [[r0 c0] h0] eqn:E0.
  destruct r0 as [u|e0].
  - assert (Hsame : BringClient.get_lists false c0 h0
                    = BringClient.get_lists false c h).
    { rewrite !get_lists_unfold, E0.
      by rewrite (ensure_connected_again _ _ _ _ _ E0). }
    rewrite Hsame.
    destruct (BringClient.get_lists false c h) as [[r1 c1] h1] eqn:E1.
    apply get_lists_email in E1. destruct r1; [|done]. by rewrite E1.
  - by rewrite get_lists_unfold, E0.
Qed.
End UserInfo.

(** X12 on a client right after its constructor: the session, the login and
    the catalog query of [get_lists], and one list. *)
Lemma X12_witness :
  @BringClient.get_user_info one_list unconnected_client []
  = (Ok {[ "email" := VStr "me@example.org"; "list_count" := VInt 1 ]},
     BringClient.set_lists_cache (Some [weekly]) fresh_client,
     fetched_history).
Proof.
  exact (eq_trans (@X12_get_user_info one_list unconnected_client [])
                  eq_refl).
Defined.

(** ** A summary in a session that has the catalog *)

Section SummaryRequests.
Context `{Env}.
Context (catalog : list ListSummary).

Lemma serves_get_items list_name self h :
  holds (caches catalog) self →
  BringIntegration.get_items list_name self h =
  match resolution catalog (BringIntegration._default_list_uuid self)
                   list_name with
  | Ok list_uuid =>
      (match get_list_reply h list_uuid with
       | inr items => Ok items
       | inl msg => Raise (TransportError msg)
       end, self, h ++ [GetList list_uuid])
  | Raise e => (Raise e, self, h)
  end.
Proof.
  intros HI. unfold BringIntegration.get_items. unfold_M.
  destruct HI as [c [Hc HI]].
  rewrite initialize_again by (by eexists).
  rewrite (serves_resolve catalog) by (by exists c).
  destruct (resolution _ _ _) as [list_uuid|e]; [|done].
  unfold BringIntegration.on_client. rewrite Hc.
  destruct HI as [[b Hb] _].
  unfold BringClient.get_items, BringClient.ensure_connected,
    BringClient.the_bring, get_list.
  unfold_M. rewrite Hb. simpl. rewrite Hb.
  by destruct (get_list_reply h list_uuid); rewrite set_client_same.
Qed.

(** X13.  [format_list_summary] in a session whose connected client has the
    catalog in its cache.  It resolves the list as an item operation does and
    raises the two resolution errors before anything is sent; otherwise it
    sends one request, the one for the contents of the list, before it looks
    for the title, and nothing else: the title comes from the cached catalog.
    For a named list the title is the name of the catalog entry, in the
    catalog's spelling and not the caller's; without a name it is the name of
    the first entry that has the stored default as its identifier, and
    ["Shopping List"] when the catalog has none.  The session object is the
    same afterwards. *)
Theorem X13_summary_one_request list_name self h :
  holds (caches catalog) self →
  BringIntegration.format_list_summary list_name self h =
  match resolution catalog (BringIntegration._default_list_uuid self)
                   list_name with
  | Raise e => (Raise e, self, h)
  | Ok list_uuid =>
      (match get_list_reply h list_uuid with
       | inl msg => Raise (TransportError msg)
       | inr items =>
           match
             (if truthy list_name then
                match BringClient.first_by_name (default "" list_name)
                                                catalog with
                | Some lst => BringIntegration.subscript_name lst
                | None => Ok "Shopping List"
                end
              else
                BringIntegration.default_display_name
                  (BringIntegration._default_list_uuid self) catalog)
           with
           | Ok display_name =>
               BringIntegration.summary_text display_name items
           | Raise e => Raise e
           end
       end, self, h ++ [GetList list_uuid])
  end.
Proof.
  intros HI. unfold BringIntegration.format_list_summary. unfold_M.
  rewrite serves_get_items by done.
  destruct (resolution _ _ _) as [list_uuid|e]; [|done].
  destruct (get_list_reply h list_uuid) as [msg|items]; [done|].
  destruct (truthy list_name).
  - rewrite (serves_find_list catalog) by done.
    destruct (BringClient.first_by_name _ catalog) as [lst|]; simpl.
    + by destruct (BringIntegration.subscript_name lst).
    + by destruct (BringIntegration.summary_text _ items).
  - rewrite (serves_get_lists catalog) by done. simpl.
    destruct (BringIntegration.default_display_name _ catalog); [|done].
    by destruct (BringIntegration.summary_text _ items).
Qed.
End SummaryRequests.

(** X13 in a session that has cached ["Weekly"]: asked for ["weekly"], the
    summary is headed ["Weekly"] and costs one request. *)
Lemma X13_witness :
  @BringIntegration.format_list_summary stocked (Some "weekly")
    (session_with [weekly] None) fetched_history
  = (BringIntegration.summary_text "Weekly" milk_bread_eggs,
     session_with [weekly] None, fetched_history ++ [GetList "a1"]).
Proof.
  refine (eq_trans (@X13_summary_one_request stocked [weekly] (Some "weekly")
                      (session_with [weekly] None) fetched_history _)
                   eq_refl).
  eexists. split; [reflexivity|]. split; [by eexists|done].
Defined.


(** ** The one way out of [async with] that keeps a session *)

Section ScopeExits.
Context `{Env}.

Lemma open_sessions_login h :
  open_sessions h = [] →
  open_sessions (h ++ [SessionOpen (length h); Login]) = [length h].
Proof.
  intros Hnone.
  change (h ++ [SessionOpen (length h); Login])
    with (h ++ [SessionOpen (length h)] ++ [Login]).
  by rewrite app_assoc, open_sessions_request, open_sessions_snoc, Hnone.
Qed.

Lemma connect_raises_login c h e c' h' :
  BringClient.connect c h = (Raise e, c', h') →
  BringClient.session c = None ∧
  h' = h ++ [SessionOpen (length h); Login] ∧
  ∃ msg, e = TransportError msg.
Proof.
  rewrite connect_unfold. destruct (BringClient.session c); [done|].
  simpl. destruct (command_reply _ _); [|done].
  intros [= <- _ <-]. by eauto.
Qed.

(** X14.  [async with] leaves a session open on one way out only.  On an
    object that holds no stray session, and around a body that keeps the
    session with the object (every call of the public interface does),
    either no session is open when the statement is left, the integration
    has dropped its client, and the outcome is the one of the body, returned
    or raised; or the login of [__aenter__] has raised on an object without
    client, the body has not run, and the session opened for that login is
    the one left open.  The same holds for the client used on its own. *)
Theorem X14_scope_exits {A B}
        (body : M BringIntegration.t A) (client_body : M BringClient.t B) :
  (∀ self h r self' h',
      scoped body → owns self h →
      BringIntegration.async_with body self h = (r, self', h') →
      (BringIntegration.client self' = None ∧ open_sessions h' = [] ∧
       ∃ self0 h0,
         BringIntegration.__aenter__ self h = (Ok tt, self0, h0) ∧
         r = (body self0 h0).1.1) ∨
      (BringIntegration.client self = None ∧
       h' = h ++ [SessionOpen (length h); Login] ∧
       open_sessions h' = [length h] ∧
       ∃ msg, r = Raise (TransportError msg))) ∧
  (∀ c h r c' h',
      tidy client_body → client_owns c h →
      BringClient.async_with client_body c h = (r, c', h') →
      (BringClient.session c' = None ∧ open_sessions h' = [] ∧
       ∃ c0 h0,
         BringClient.__aenter__ c h = (Ok tt, c0, h0) ∧
         r = (client_body c0 h0).1.1) ∨
      (BringClient.session c = None ∧
       h' = h ++ [SessionOpen (length h); Login] ∧
       open_sessions h' = [length h] ∧
       ∃ msg, r = Raise (TransportError msg))).
Proof.
  split.
  - intros self h r self' h' Hbody Hown Hrun.
    destruct (BringIntegration.__aenter__ self h) as [[r0 self0] h0] eqn:E0.
    destruct r0 as [[]|e0].
    + left.
      destruct (async_with_releases body self h self0 h0 Hbody Hown E0)
        as (r1 & self1 & h1 & Hrun1 & -> & Hc & Hclosed).
      rewrite Hrun in Hrun1. injection Hrun1 as -> -> ->.
      by eauto 10.
    + right. revert Hrun.
      unfold BringIntegration.async_with. unfold_M. rewrite E0.
      intros [= <- <- <-]. revert E0.
      unfold BringIntegration.__aenter__. rewrite initialize_unfold.
      destruct (BringIntegration.client self) as [c|] eqn:Hc; [done|].
      destruct (BringClient.connect _ h) as [[r1 c1] h1] eqn:E1.
      intros [= -> _ <-].
      apply connect_raises_login in E1 as (_ & -> & [msg ->]).
      repeat split; [|by exists msg]. apply open_sessions_login.
      revert Hown. unfold owns. by rewrite Hc.
  - intros c h r c' h' Hbody Hown.
    unfold BringClient.async_with, BringClient.__aenter__,
      BringClient.__aexit__. unfold_M.
    destruct (BringClient.connect c h) as [[r0 c0] h0] eqn:E0.
    destruct r0 as [[]|e0].
    + destruct (client_body c0 h0) as [[r1 c1] h1] eqn:E1.
      assert (Hown1 : client_owns c1 h1).
      { eapply Hbody; [done|]. by eapply tidy_connect. }
      destruct (disconnect_closes c1 h1) as (c2 & h2 & -> & Hs & Hclosed).
      intros [= <- <- <-]. left.
      repeat split; [done|by apply Hclosed|].
      exists c0, h0. by rewrite E1.
    + intros [= <- <- <-]. right.
      apply connect_raises_login in E0 as (Hs & -> & [msg ->]).
      repeat split; [done| |by exists msg]. apply open_sessions_login.
      revert Hown. unfold client_owns. by rewrite Hs.
Qed.
End ScopeExits.

(** X14 around [add_item] for a list that is not there: the body raises and
    the session is closed. *)
Lemma X14_witness :
  @BringIntegration.async_with one_list _
    (@perform one_list (DoItem (DoAddItem "Milk" "") (Some "Groceries")))
    new_integration []
  = (Raise (ListNotFound "Groceries"), new_integration,
     [SessionOpen 0; Login; LoadLists; SessionClose 0]) ∧
  ((BringIntegration.client new_integration = None ∧
    open_sessions [SessionOpen 0; Login; LoadLists; SessionClose 0] = [] ∧
    ∃ self0 h0,
      @BringIntegration.__aenter__ one_list new_integration []
      = (Ok tt, self0, h0) ∧
      Raise (ListNotFound "Groceries")
      = (@perform one_list (DoItem (DoAddItem "Milk" "") (Some "Groceries"))
           self0 h0).1.1) ∨
   (BringIntegration.client new_integration = None ∧
    [SessionOpen 0; Login; LoadLists; SessionClose 0]
    = [] ++ [SessionOpen (length (@nil event)); Login] ∧
    open_sessions [SessionOpen 0; Login; LoadLists; SessionClose 0]
    = [length (@nil event)] ∧
    ∃ msg, @Raise value (ListNotFound "Groceries")
           = Raise (TransportError msg))).
Proof.
  split; [reflexivity|].
  apply (proj1 (@X14_scope_exits one_list value unit
                  (@perform one_list
                     (DoItem (DoAddItem "Milk" "") (Some "Groceries")))
                  (mret tt))
           new_integration []
           (Raise (ListNotFound "Groceries")) new_integration
           [SessionOpen 0; Login; LoadLists; SessionClose 0]).
  - apply (@scoped_perform one_list
             (DoItem (DoAddItem "Milk" "") (Some "Groceries"))).
  - reflexivity.
  - reflexivity.
Defined.
